(** * GoHue [light.go]: the light mirror and its synchronisation protocol

    A shallow embedding of [light.go] of the GoHue library: the [Light]
    mirror, the [LightState] patch, the write-then-read round trip of
    [Light.SetState], the bounded scan of [GetAllLights], the lookups
    [GetLightByIndex] and [GetLightByName], and [Light.Blink].

    The file holds two revisions of [light.go].  [Light.SetState] and
    [Light.Blink] are taken from the later one (methods on [*Light]); the free
    functions [GetAllLights], [GetLightByIndex] and [GetLightByName] are taken
    from the earlier one, which is the only place where their bodies appear.
    The later revision calls [light.Bridge.GetLightByIndex(light.Index)], the
    same function with its first argument turned into the receiver.

    The bridge (type [Bridge], its methods [Get] and [Put]), [json.Unmarshal],
    [time.Sleep] and [trace] live outside [light.go].  They are the fields of
    an environment [Env]; every general theorem below holds for all
    environments.  A simulated bridge ([Module Fake]) instantiates the
    environment for the concrete runs. *)

From Stdlib Require Import ZArith List String Ascii Bool Lia.
From Stdlib Require Import SpecFloat DecimalString DecimalZ.
Import ListNotations.
Local Open Scope Z_scope.
Local Open Scope string_scope.

(** ** Machine integers *)

(** Go's [int] on a 64-bit target: two's complement, wrapping on overflow. *)
Definition int_wrap (z : Z) : Z := (z + 2 ^ 63) mod 2 ^ 64 - 2 ^ 63.

(** The conversion [uint8(x)] of an [int]. *)
Definition uint8 (z : Z) : Z := z mod 256.

(** [float32] values, as IEEE 754 data (never computed with here). *)
Definition float32 : Set := spec_float.
Definition float32_zero : float32 := S754_zero false.

(** ** Errors *)

(** Go's [error] values met in [light.go]: those built in the file itself by
    [errors.New], and those handed over by a collaborator, the bridge or
    [encoding/json], known by their message.  An error made by [errors.New]
    in [light.go] is a value of its own: no collaborator returns it. *)
Inductive error : Set :=
| errors_New (text : string)
| BridgeError (message : string)
| JsonError (message : string).

(** ** [LightState]: the patch sent by [Light.SetState] *)

Record LightState : Set := mkLightState {
  ls_On : bool;
  ls_Bri : Z;
  ls_Hue : Z;
  ls_Sat : Z;
  ls_XY : option (float32 * float32);
  ls_CT : Z;
  ls_Effect : string;
  ls_Alert : string;
  ls_TransitionTime : string;
  ls_SaturationIncrement : Z;
  ls_HueIncrement : Z;
  ls_BrightnessIncrement : Z;
  ls_CTIncrement : Z;
  ls_XYIncrement : option (float32 * float32);
  ls_Name : string
}.

(** The composite literal [LightState{On: on, Bri: bri}]: the fields that are
    not named take their zero value. *)
Definition LightState_On_Bri (on : bool) (bri : Z) : LightState :=
  {| ls_On := on; ls_Bri := bri; ls_Hue := 0; ls_Sat := 0; ls_XY := None;
     ls_CT := 0; ls_Effect := ""; ls_Alert := ""; ls_TransitionTime := "";
     ls_SaturationIncrement := 0; ls_HueIncrement := 0;
     ls_BrightnessIncrement := 0; ls_CTIncrement := 0; ls_XYIncrement := None;
     ls_Name := "" |}.

(** ** [Light]: the mirror *)

(** The anonymous struct of the field [Light.State]. *)
Record State_t : Set := mkState {
  On : bool;
  Bri : Z;
  Hue : Z;
  Saturation : Z;
  Effect : string;
  XY : float32 * float32;
  CT : Z;
  Alert : string;
  ColorMode : string;
  Reachable : bool
}.

Definition State_zero : State_t :=
  {| On := false; Bri := 0; Hue := 0; Saturation := 0; Effect := "";
     XY := (float32_zero, float32_zero); CT := 0; Alert := "";
     ColorMode := ""; Reachable := false |}.

Section Data.
(** The addresses of [Bridge] values: a [*Bridge] that is not nil. *)
Variable BridgeRef : Type.

(** [Light.Bridge] is a [*Bridge]: [None] is the nil pointer. *)
Record Light : Type := mkLight {
  State : State_t;
  Type_ : string;
  Name : string;
  ModelID : string;
  ManufacturerName : string;
  UniqueID : string;
  SWVersion : string;
  Index : Z;
  Bridge : option BridgeRef
}.

(** The zero value [Light{}]. *)
Definition Light_zero : Light :=
  {| State := State_zero; Type_ := ""; Name := ""; ModelID := "";
     ManufacturerName := ""; UniqueID := ""; SWVersion := "";
     Index := 0; Bridge := None |}.

(** The assignments [light.Index = index] and [light.Bridge = bridge]. *)
Definition set_Index (light : Light) (index : Z) : Light :=
  {| State := State light; Type_ := Type_ light; Name := Name light;
     ModelID := ModelID light; ManufacturerName := ManufacturerName light;
     UniqueID := UniqueID light; SWVersion := SWVersion light;
     Index := index; Bridge := Bridge light |}.

Definition set_Bridge (light : Light) (bridge : option BridgeRef) : Light :=
  {| State := State light; Type_ := Type_ light; Name := Name light;
     ModelID := ModelID light; ManufacturerName := ManufacturerName light;
     UniqueID := UniqueID light; SWVersion := SWVersion light;
     Index := Index light; Bridge := bridge |}.

(** What a run leaves behind besides its results: the calls made on the
    collaborators, oldest first. *)
Inductive Event : Type :=
| CallGet (bridge : BridgeRef) (uri : string)
| CallPut (bridge : BridgeRef) (uri : string) (payload : LightState)
| CallSleep (nanoseconds : Z)
| CallTrace (err : error).
End Data.

Arguments Light_zero {BridgeRef}.
Arguments CallGet {BridgeRef}.
Arguments CallPut {BridgeRef}.
Arguments CallSleep {BridgeRef}.
Arguments CallTrace {BridgeRef}.
Arguments State {BridgeRef}.
Arguments Type_ {BridgeRef}.
Arguments Name {BridgeRef}.
Arguments ModelID {BridgeRef}.
Arguments ManufacturerName {BridgeRef}.
Arguments UniqueID {BridgeRef}.
Arguments SWVersion {BridgeRef}.
Arguments Index {BridgeRef}.
Arguments Bridge {BridgeRef}.
Arguments set_Index {BridgeRef}.
Arguments set_Bridge {BridgeRef}.

(** ** The collaborators *)

(** Everything [light.go] calls and does not define.  [World] is the state of
    whatever is behind the transport (the bridge device, the lamps, the
    network, other clients); each call may change it.
    - [bridge_Get b uri] is [b.Get(uri)], giving the body and the error;
    - [bridge_Put b uri payload] is [b.Put(uri, payload)], giving the error;
    - [json_Unmarshal body light] is [json.Unmarshal(body, &light)], giving
      the contents of [light] afterwards and the error;
    - [sleep d] is what happens to the world during [time.Sleep(d)].
    An error of a collaborator is given by its message, [None] being nil. *)
Class Env : Type := {
  BridgeRef : Type;
  World : Type;
  Username : BridgeRef -> string;
  bridge_Get : BridgeRef -> string -> World -> (string * option string) * World;
  bridge_Put : BridgeRef -> string -> LightState -> World -> option string * World;
  json_Unmarshal : string -> Light BridgeRef -> Light BridgeRef * option string;
  sleep : Z -> World -> World
}.

(** ** Library functions *)

(** [strings.Contains(s, substr)]. *)
Fixpoint strings_Contains (s substr : string) : bool :=
  if String.prefix substr s then true
  else match s with
       | EmptyString => false
       | String _ s' => strings_Contains s' substr
       end.

(** The verb [%d] of [fmt.Sprintf] on an [int]. *)
Definition format_d (z : Z) : string := NilZero.string_of_int (Z.to_int z).

(** [time.Second], a [time.Duration] counted in nanoseconds. *)
Definition time_Second : Z := 1000000000.

Section Model.
Context {E : Env}.

(** ** Runs *)

Record St : Type := mkSt {
  world : World;
  journal : list (Event BridgeRef)
}.

(** A call either comes back with a value, or panics (a nil [*Bridge] is
    dereferenced). *)
Inductive outcome (A : Type) : Type :=
| Done (a : A) (s : St)
| Panic.
Arguments Done {A}.
Arguments Panic {A}.

Definition M (A : Type) : Type := St -> outcome A.

Definition ret {A} (a : A) : M A := fun s => Done a s.

Definition bind {A B} (c : M A) (k : A -> M B) : M B :=
  fun s => match c s with
           | Done a s' => k a s'
           | Panic => Panic
           end.

Definition panic {A} : M A := fun _ => Panic.

Definition record (e : Event BridgeRef) (s : St) : list (Event BridgeRef) :=
  journal s ++ [e].

Definition Bridge_Get (bridge : BridgeRef) (uri : string)
  : M (string * option error) :=
  fun s => let '((body, err), w) := bridge_Get bridge uri (world s) in
           Done (body, option_map BridgeError err)
                {| world := w; journal := record (CallGet bridge uri) s |}.

Definition Bridge_Put (bridge : BridgeRef) (uri : string) (payload : LightState)
  : M (option error) :=
  fun s => let '(err, w) := bridge_Put bridge uri payload (world s) in
           Done (option_map BridgeError err)
                {| world := w;
                   journal := record (CallPut bridge uri payload) s |}.

(** [json.Unmarshal(body, &light)]. *)
Definition json_Unmarshal_into (body : string) (light : Light BridgeRef)
  : Light BridgeRef * option error :=
  let '(light', err) := json_Unmarshal body light in
  (light', option_map JsonError err).

Definition time_Sleep (d : Z) : M unit :=
  fun s => Done tt {| world := sleep d (world s);
                      journal := record (CallSleep d) s |}.

(** [trace("", err)] writes a log line. *)
Definition trace (err : error) : M unit :=
  fun s => Done tt {| world := world s; journal := record (CallTrace err) s |}.
End Model.

Arguments Done {E A}.
Arguments Panic {E A}.

Declare Scope go_scope.
Delimit Scope go_scope with go.
Notation "x <- c ;; k" := (bind c (fun x => k))
  (at level 61, c at next level, right associativity) : go_scope.
Notation "' pat <- c ;; k" := (bind c (fun x => match x with pat => k end))
  (at level 61, pat pattern, c at next level, right associativity) : go_scope.
Notation "c ;;; k" := (bind c (fun _ => k))
  (at level 61, right associativity) : go_scope.

Section Operations.
Context {E : Env}.
Local Open Scope go_scope.

(** [fmt.Sprintf("/api/%s/lights/%d", bridge.Username, index)]. *)
Definition light_uri (bridge : BridgeRef) (index : Z) : string :=
  "/api/" ++ Username bridge ++ "/lights/" ++ format_d index.

(** [fmt.Sprintf("/api/%s/lights/%d/state", light.Bridge.Username, light.Index)]. *)
Definition state_uri (bridge : BridgeRef) (index : Z) : string :=
  "/api/" ++ Username bridge ++ "/lights/" ++ format_d index ++ "/state".

(** [GetLightByIndex]. *)
Definition GetLightByIndex (bridge : BridgeRef) (index : Z)
  : M (Light BridgeRef * option error) :=
  let uri := light_uri bridge index in
  '(body, err) <- Bridge_Get bridge uri ;;
  match err with
  | Some e => ret (Light_zero, Some e)
  | None =>
    if strings_Contains body "not available"
    then ret (Light_zero, Some (errors_New "Index Error"))
    else
      let '(light, err) := json_Unmarshal_into body Light_zero in
      match err with
      | Some e => trace e
      | None => ret tt
      end ;;;
      let light := set_Index light index in
      let light := set_Bridge light (Some bridge) in
      ret (light, None)
  end.

(** [Light.SetState].  The result pairs the contents of [*light] when the
    call returns with the returned error.  [light.Bridge.Username] panics
    on a nil [light.Bridge].  The assignment
    [*light, err = light.Bridge.GetLightByIndex(light.Index)] stores the
    fetched value whatever [err] is. *)
Definition SetState (light : Light BridgeRef) (newState : LightState)
  : M (Light BridgeRef * option error) :=
  match Bridge light with
  | None => panic
  | Some bridge =>
    let uri := state_uri bridge (Index light) in
    err <- Bridge_Put bridge uri newState ;;
    match err with
    | Some e => ret (light, Some e)
    | None =>
      '(fetched, err) <- GetLightByIndex bridge (Index light) ;;
      match err with
      | Some e => ret (fetched, Some e)
      | None => ret (fetched, None)
      end
    end
  end.

(** The loop of [GetAllLights], [for index := 1; index < 101; index++]:
    [n] is the number of iterations still allowed by the loop condition,
    [index] the loop variable. *)
Fixpoint GetAllLights_for (n : nat) (bridge : BridgeRef) (index : Z)
    (lights : list (Light BridgeRef)) : M (list (Light BridgeRef)) :=
  match n with
  | O => ret lights
  | S n' =>
    '(light, err) <- GetLightByIndex bridge index ;;
    match err with
    | Some _ => ret lights
    | None => GetAllLights_for n' bridge (index + 1) (lights ++ [light])
    end
  end.

(** The same loop, statement by statement, with the test [index < 101]
    before each turn and [index++] on machine integers.  [fuel] bounds the
    number of turns; [None] tells that it ran out. *)
Fixpoint GetAllLights_loop (fuel : nat) (bridge : BridgeRef) (index : Z)
    (lights : list (Light BridgeRef)) : M (option (list (Light BridgeRef))) :=
  if Z.ltb index 101 then
    match fuel with
    | O => ret None
    | S fuel' =>
      '(light, err) <- GetLightByIndex bridge index ;;
      match err with
      | Some _ => ret (Some lights)
      | None =>
        GetAllLights_loop fuel' bridge (int_wrap (index + 1)) (lights ++ [light])
      end
    end
  else ret (Some lights).

(** [GetAllLights]. *)
Definition GetAllLights (bridge : BridgeRef)
  : M (list (Light BridgeRef) * option error) :=
  lights <- GetAllLights_for 100 bridge 1 [] ;;
  ret (lights, None).

(** The loop of [GetLightByName], [for _, light := range lights]. *)
Fixpoint GetLightByName_range (lights : list (Light BridgeRef)) (name : string)
  : Light BridgeRef * option error :=
  match lights with
  | [] => (Light_zero, Some (errors_New "Light not found."))
  | light :: rest =>
    if String.eqb (Name light) name then (light, None)
    else GetLightByName_range rest name
  end.

(** [GetLightByName]. *)
Definition GetLightByName (bridge : BridgeRef) (name : string)
  : M (Light BridgeRef * option error) :=
  '(lights, _) <- GetAllLights bridge ;;
  ret (GetLightByName_range lights name).

(** The two patches of [Light.Blink]. *)
Definition blinkMax : LightState := LightState_On_Bri true (uint8 200).
Definition blinkMin : LightState := LightState_On_Bri true (uint8 50).

(** One turn of the loop of [Light.Blink], up to the error test. *)
Definition Blink_step (i : Z) (light : Light BridgeRef)
  : M (Light BridgeRef * option error) :=
  if Z.eqb (Z.rem i 2) 0 then SetState light blinkMax else SetState light blinkMin.

(** The loop of [Light.Blink], [for i := 0; i <= seconds*2; i++]: [n] is
    the number of iterations still allowed by the loop condition, [i] the
    loop variable.  [i] stays below [2^63 - 1], so [i++] never wraps. *)
Fixpoint Blink_for (n : nat) (i : Z) (light : Light BridgeRef)
  : M (Light BridgeRef * option error) :=
  match n with
  | O => ret (light, None)
  | S n' =>
    '(light, err) <- Blink_step i light ;;
    match err with
    | Some e => ret (light, Some e)
    | None =>
      time_Sleep (Z.quot time_Second 2) ;;;
      Blink_for n' (i + 1) light
    end
  end.

(** The same loop, statement by statement, with the test [i <= seconds*2]
    before each turn and [i++] on machine integers.  [fuel] bounds the
    number of turns; [None] tells that it ran out. *)
Fixpoint Blink_loop (fuel : nat) (seconds i : Z) (light : Light BridgeRef)
  : M (option (Light BridgeRef * option error)) :=
  if Z.leb i (int_wrap (seconds * 2)) then
    match fuel with
    | O => ret None
    | S fuel' =>
      '(light, err) <- Blink_step i light ;;
      match err with
      | Some e => ret (Some (light, Some e))
      | None =>
        time_Sleep (Z.quot time_Second 2) ;;;
        Blink_loop fuel' seconds (int_wrap (i + 1)) light
      end
    end
  else ret (Some (light, None)).

(** How many times the condition [i <= seconds*2] holds, from [i = 0] on. *)
Definition Blink_turns (seconds : Z) : nat :=
  Z.to_nat (int_wrap (seconds * 2) + 1).

(** The patch [LightState{On: originalPosition, Bri: uint8(originalBrightness)}]. *)
Definition Blink_original (originalPosition : bool) (originalBrightness : Z)
  : LightState :=
  LightState_On_Bri originalPosition (uint8 originalBrightness).

(** The test [light.State.Bri != originalBrightness ||
    light.State.On != originalPosition]. *)
Definition Blink_changed (light : Light BridgeRef)
    (originalPosition : bool) (originalBrightness : Z) : bool :=
  negb (Z.eqb (Bri (State light)) originalBrightness)
  || negb (Bool.eqb (On (State light)) originalPosition).

(** The first part of [Light.Blink]: the opening [SetState(blinkMax)] and
    the loop. *)
Definition Blink_oscillate (light : Light BridgeRef) (seconds : Z)
  : M (Light BridgeRef * option error) :=
  '(light, err) <- SetState light blinkMax ;;
  match err with
  | Some e => ret (light, Some e)
  | None => Blink_for (Blink_turns seconds) 0 light
  end.

(** [Light.Blink].  The error of the last [SetState] is dropped. *)
Definition Blink (light : Light BridgeRef) (seconds : Z)
  : M (Light BridgeRef * option error) :=
  let originalPosition := On (State light) in
  let originalBrightness := Bri (State light) in
  '(light, err) <- Blink_oscillate light seconds ;;
  match err with
  | Some e => ret (light, Some e)
  | None =>
    if Blink_changed light originalPosition originalBrightness
    then
      '(light, _) <- SetState light
                       (Blink_original originalPosition originalBrightness) ;;
      ret (light, None)
    else ret (light, None)
  end.
End Operations.

(** [substr] occurs in [s]. *)
Definition occurs_in (substr s : string) : Prop :=
  exists before after, s = before ++ substr ++ after.

(** ** What a run shows *)

Section Observations.
Context {E : Env}.

(** The paths of the [Get] calls of a journal, the payloads of its [Put]
    calls, and the lengths of its sleeps, each oldest first. *)
Fixpoint gets (j : list (Event BridgeRef)) : list string :=
  match j with
  | [] => []
  | CallGet _ uri :: rest => uri :: gets rest
  | _ :: rest => gets rest
  end.

Fixpoint puts (j : list (Event BridgeRef)) : list LightState :=
  match j with
  | [] => []
  | CallPut _ _ payload :: rest => payload :: puts rest
  | _ :: rest => puts rest
  end.

Fixpoint sleeps (j : list (Event BridgeRef)) : list Z :=
  match j with
  | [] => []
  | CallSleep d :: rest => d :: sleeps rest
  | _ :: rest => sleeps rest
  end.

(** The result of a loop that did not run out of fuel. *)
Definition finished {A : Type} (o : outcome A) : outcome (option A) :=
  match o with
  | Done a s => Done (Some a) s
  | Panic => Panic
  end.

(** The [n] consecutive indices from [from] on. *)
Fixpoint indices (from : Z) (n : nat) : list Z :=
  match n with
  | O => []
  | S n' => from :: indices (from + 1) n'
  end.

(** The patch of the [k]-th turn of an oscillation that starts bright. *)
Definition oscillation (k : nat) : LightState :=
  if Nat.even k then blinkMax else blinkMin.

(** The scan as the specification words it: probe the indices one after the
    other from [index] on, stop at the first one whose fetch fails or past
    index 100, and keep the mirrors fetched until then, in that order. *)
Inductive Scan (bridge : BridgeRef)
  : Z -> St -> list (Light BridgeRef) -> St -> Prop :=
| Scan_bound : forall s, Scan bridge 101 s [] s
| Scan_gap : forall index s junk e s',
    index < 101 ->
    GetLightByIndex bridge index s = Done (junk, Some e) s' ->
    Scan bridge index s [] s'
| Scan_found : forall index s light s1 lights s',
    index < 101 ->
    GetLightByIndex bridge index s = Done (light, None) s1 ->
    Scan bridge (index + 1) s1 lights s' ->
    Scan bridge index s (light :: lights) s'.

(** The lookup as the specification words it: the first mirror of the
    sequence whose name is the wanted one, character for character. *)
Inductive FirstNamed (name : string)
  : list (Light BridgeRef) -> option (Light BridgeRef) -> Prop :=
| FirstNamed_none : FirstNamed name [] None
| FirstNamed_here : forall light rest,
    Name light = name -> FirstNamed name (light :: rest) (Some light)
| FirstNamed_later : forall light rest found,
    Name light <> name -> FirstNamed name rest found ->
    FirstNamed name (light :: rest) found.
End Observations.

(** ** The other methods of the later revision *)

(** The composite literals [LightState{On: on}],
    [LightState{On: on, Effect: effect}] and [LightState{On: on, XY: xy}]. *)
Definition LightState_On (on : bool) : LightState :=
  {| ls_On := on; ls_Bri := 0; ls_Hue := 0; ls_Sat := 0; ls_XY := None;
     ls_CT := 0; ls_Effect := ""; ls_Alert := ""; ls_TransitionTime := "";
     ls_SaturationIncrement := 0; ls_HueIncrement := 0;
     ls_BrightnessIncrement := 0; ls_CTIncrement := 0; ls_XYIncrement := None;
     ls_Name := "" |}.

Definition LightState_On_Effect (on : bool) (effect : string) : LightState :=
  {| ls_On := on; ls_Bri := 0; ls_Hue := 0; ls_Sat := 0; ls_XY := None;
     ls_CT := 0; ls_Effect := effect; ls_Alert := ""; ls_TransitionTime := "";
     ls_SaturationIncrement := 0; ls_HueIncrement := 0;
     ls_BrightnessIncrement := 0; ls_CTIncrement := 0; ls_XYIncrement := None;
     ls_Name := "" |}.

Definition LightState_On_XY (on : bool) (xy : option (float32 * float32))
  : LightState :=
  {| ls_On := on; ls_Bri := 0; ls_Hue := 0; ls_Sat := 0; ls_XY := xy;
     ls_CT := 0; ls_Effect := ""; ls_Alert := ""; ls_TransitionTime := "";
     ls_SaturationIncrement := 0; ls_HueIncrement := 0;
     ls_BrightnessIncrement := 0; ls_CTIncrement := 0; ls_XYIncrement := None;
     ls_Name := "" |}.

Section Effects.
Context {E : Env}.
Local Open Scope go_scope.

(** [Light.Off]. *)
Definition Off (light : Light BridgeRef) : M (Light BridgeRef * option error) :=
  SetState light (LightState_On false).

(** [Light.On]; [On] is the field of [Light.State] here. *)
Definition Light_On (light : Light BridgeRef)
  : M (Light BridgeRef * option error) :=
  SetState light (LightState_On true).

(** [Light.Toggle]. *)
Definition Toggle (light : Light BridgeRef)
  : M (Light BridgeRef * option error) :=
  if On (State light) then Off light else Light_On light.

(** [Light.ColorLoop]. *)
Definition ColorLoop (light : Light BridgeRef) (activate : bool)
  : M (Light BridgeRef * option error) :=
  let state := if activate then "colorloop" else "none" in
  SetState light (LightState_On_Effect true state).

(** [Light.SetColor]; [color] is a [*[2]float32], [None] being nil. *)
Definition SetColor (light : Light BridgeRef)
    (color : option (float32 * float32))
  : M (Light BridgeRef * option error) :=
  let lightState := LightState_On_XY true color in
  '(light, err) <- SetState light lightState ;;
  match err with
  | Some e => ret (light, Some e)
  | None => ret (light, None)
  end.

(** A call on [light] that sends [patch] and nothing else: it panics when
    the mirror has no bridge and otherwise comes back having made one [Put],
    of [patch], and no sleep. *)
Definition one_patch {A : Type} (call : M A) (light : Light BridgeRef)
    (patch : LightState) (s : St) : Prop :=
  match call s with
  | Panic => Bridge light = None
  | Done _ s' =>
    Bridge light <> None /\
    puts (journal s') = (puts (journal s) ++ [patch])%list /\
    sleeps (journal s') = sleeps (journal s)
  end.
End Effects.

(** ** The earlier revision *)

(** [fmt.Println], which the earlier [Toggle] calls: what a printed line
    does to the world. *)
Class Console {E : Env} : Type := {
  fmt_Println : string -> World -> World
}.

Module Earlier.
Section Operations.
Context {E : Env} {C : Console}.
Local Open Scope go_scope.

Definition Println (line : string) : M unit :=
  fun s => Done tt {| world := fmt_Println line (world s);
                      journal := journal s |}.

(** [SetLightState]. *)
Definition SetLightState (light : Light BridgeRef) (newState : LightState)
  : M (Light BridgeRef * option error) :=
  match Bridge light with
  | None => panic
  | Some bridge =>
    let uri := state_uri bridge (Index light) in
    err <- Bridge_Put bridge uri newState ;;
    match err with
    | Some e => ret (light, Some e)
    | None =>
      '(fetched, err) <- GetLightByIndex bridge (Index light) ;;
      match err with
      | Some e => ret (fetched, Some e)
      | None => ret (fetched, None)
      end
    end
  end.

(** [Light.Off] and [Light.On]. *)
Definition Off (self : Light BridgeRef) : M (Light BridgeRef * option error) :=
  SetLightState self (LightState_On false).

Definition Light_On (self : Light BridgeRef)
  : M (Light BridgeRef * option error) :=
  SetLightState self (LightState_On true).

(** [Light.Toggle]. *)
Definition Toggle (self : Light BridgeRef)
  : M (Light BridgeRef * option error) :=
  if On (State self)
  then Println "toggling off" ;;; Off self
  else Println "toggling on" ;;; Light_On self.

(** The loop of [Light.Blink], [for i := 0; i <= seconds; i++], statement by
    statement, with [i++] on machine integers.  [fuel] bounds the number of
    turns; [None] tells that it ran out. *)
Fixpoint Blink_loop (fuel : nat) (seconds i : Z) (self : Light BridgeRef)
  : M (option (Light BridgeRef * option error)) :=
  if Z.leb i seconds then
    match fuel with
    | O => ret None
    | S fuel' =>
      '(self, err) <- Toggle self ;;
      match err with
      | Some e => ret (Some (self, Some e))
      | None =>
        time_Sleep time_Second ;;;
        Blink_loop fuel' seconds (int_wrap (i + 1)) self
      end
    end
  else ret (Some (self, None)).

(** [Light.Blink], with the fuel of its loop. *)
Definition Blink (fuel : nat) (self : Light BridgeRef) (seconds : Z)
  : M (option (Light BridgeRef * option error)) :=
  let originalState := On (State self) in
  looped <- Blink_loop fuel seconds 0 self ;;
  match looped with
  | None => ret None
  | Some (self, Some e) => ret (Some (self, Some e))
  | Some (self, None) =>
    if negb (Bool.eqb (On (State self)) originalState)
    then
      '(self, err) <- Toggle self ;;
      match err with
      | Some e => ret (Some (self, Some e))
      | None => ret (Some (self, None))
      end
    else ret (Some (self, None))
  end.

(** [Light.ColorLoop]. *)
Definition ColorLoop (self : Light BridgeRef) (activate : bool)
  : M (Light BridgeRef * option error) :=
  let state := if activate then "colorloop" else "none" in
  SetLightState self (LightState_On_Effect true state).
End Operations.
End Earlier.

(** ** Discovery on a [*Bridge] that may be nil *)

Section Pointers.
Context {E : Env}.
Local Open Scope go_scope.




End Pointers.

(** ** Turns and switches *)


Section Turns.
Context {E : Env}.

(** [n] turns of blinking made without error, the first one being turn number
    [k]: turn number [k] applies [blinkMax] when [k] is even and [blinkMin]
    when it is odd, by a [SetState] that returns no error, then sleeps half a
    second. *)
Inductive Turned
  : nat -> nat -> Light BridgeRef -> St -> Light BridgeRef -> St -> Prop :=
| Turned_none : forall k light s, Turned k O light s light s
| Turned_more : forall k n light s l1 s1 s2 l s',
    SetState light (oscillation k) s = Done (l1, None) s1 ->
    time_Sleep (Z.quot time_Second 2) s1 = Done tt s2 ->
    Turned (S k) n l1 s2 l s' ->
    Turned k (S n) light s l s'.
End Turns.

Section EarlierTurns.
Context {E : Env} {C : Console}.

(** [n] turns of the earlier blinking made without error: each is a [Toggle]
    that returns no error, then a sleep of one second. *)
Inductive Toggled
  : nat -> Light BridgeRef -> St -> Light BridgeRef -> St -> Prop :=
| Toggled_none : forall self s, Toggled O self s self s
| Toggled_more : forall n self s l1 s1 s2 l s',
    Earlier.Toggle self s = Done (l1, None) s1 ->
    time_Sleep time_Second s1 = Done tt s2 ->
    Toggled n l1 s2 l s' ->
    Toggled (S n) self s l s'.
End EarlierTurns.

(** * A simulated bridge

    A test double for the collaborators: a bridge that keeps a few lamps,
    serves them as JSON, applies the patches it is sent, can lose its
    network after a number of calls and can have its lamps changed by another
    client.  It gives the environment of the concrete runs below.

    [Unmarshal] stands for [json.Unmarshal] on a fragment of JSON: integers
    are the only numbers, strings carry no escape, and the members [xy] and
    [bridge] of a body are skipped.  On that fragment it follows
    [encoding/json]: a body that is not well-formed is refused before
    anything is written; a member whose value does not fit its field is
    skipped, the decoding goes on, and the first such mismatch is the error
    returned; [null] leaves a field as it is; keys match field names without
    regard to case. *)
Module Fake.

Definition quote : ascii := ascii_of_nat 34.
Definition quoted (s : string) : string := String quote (s ++ String quote "").

#[warnings="-register-all"]
Inductive json : Set :=
| JNull
| JBool (b : bool)
| JNum (z : Z)
| JStr (s : string)
| JArr (elements : list json)
| JObj (members : list (string * json)).

Inductive token : Set :=
| TLBrace | TRBrace | TLBracket | TRBracket | TColon | TComma
| TStr (s : string) | TNum (z : Z) | TTrue | TFalse | TNull.

(** Whether [c] is one of the characters of [s]. *)
Fixpoint member (c : ascii) (s : string) : bool :=
  match s with
  | EmptyString => false
  | String d rest => Ascii.eqb c d || member c rest
  end.

(** The image of [c] when the characters of [from] are sent, one by one, to
    those of [to]: [c] itself when it is not in [from]. *)
Fixpoint translate (from to : string) (c : ascii) : ascii :=
  match from, to with
  | String f from', String t to' =>
    if Ascii.eqb c f then t else translate from' to' c
  | _, _ => c
  end.

(** Space, tab, line feed, carriage return. *)
Definition is_space (c : ascii) : bool :=
  Ascii.eqb c " " || Ascii.eqb c (ascii_of_nat 9)
  || Ascii.eqb c (ascii_of_nat 10) || Ascii.eqb c (ascii_of_nat 13).

Definition is_digit (c : ascii) : bool := member c "0123456789".

(** The characters below the space. *)
Definition is_control (c : ascii) : bool :=
  match c with
  | Ascii _ _ _ _ _ false false false => true
  | _ => false
  end.

Fixpoint position (c : ascii) (s : string) (from : Z) : Z :=
  match s with
  | EmptyString => from
  | String d rest => if Ascii.eqb c d then from else position c rest (from + 1)
  end.

Definition digit_value (c : ascii) : Z := position c "0123456789" 0.

(** The characters of a string literal, after its opening quote. *)
Fixpoint read_string (s : string) : option (string * string) :=
  match s with
  | EmptyString => None
  | String c rest =>
    if Ascii.eqb c quote then Some (EmptyString, rest)
    else if Ascii.eqb c "\" || is_control c then None
    else match read_string rest with
         | Some (str, rest') => Some (String c str, rest')
         | None => None
         end
  end.

Fixpoint read_digits (acc : Z) (s : string) : Z * string :=
  match s with
  | EmptyString => (acc, s)
  | String c rest =>
    if is_digit c then read_digits (acc * 10 + digit_value c) rest
    else (acc, s)
  end.

Definition read_unsigned (s : string) : option (Z * string) :=
  match s with
  | EmptyString => None
  | String c rest =>
    if negb (is_digit c) then None
    else if Ascii.eqb c "0" then
      match rest with
      | String d _ => if is_digit d then None else Some (0, rest)
      | EmptyString => Some (0, rest)
      end
    else Some (read_digits 0 s)
  end.

Definition read_number (s : string) : option (Z * string) :=
  match s with
  | EmptyString => None
  | String c rest =>
    if Ascii.eqb c "-" then
      match read_unsigned rest with
      | Some (z, rest') => Some (- z, rest')
      | None => None
      end
    else read_unsigned s
  end.

(** Whether [s] begins with [word]. *)
Fixpoint starts_with (word s : string) : bool :=
  match word, s with
  | EmptyString, _ => true
  | String a word', String b s' => Ascii.eqb a b && starts_with word' s'
  | _, _ => false
  end.

Fixpoint drop (n : nat) (s : string) : string :=
  match n, s with
  | S n', String _ rest => drop n' rest
  | _, _ => s
  end.

Definition push (t : token) (ts : option (list token)) : option (list token) :=
  match ts with
  | Some l => Some (t :: l)
  | None => None
  end.

Fixpoint lex (fuel : nat) (s : string) : option (list token) :=
  match fuel with
  | O => None
  | S fuel' =>
    match s with
    | EmptyString => Some []
    | String c rest =>
      if is_space c then lex fuel' rest
      else if Ascii.eqb c "{" then push TLBrace (lex fuel' rest)
      else if Ascii.eqb c "}" then push TRBrace (lex fuel' rest)
      else if Ascii.eqb c "[" then push TLBracket (lex fuel' rest)
      else if Ascii.eqb c "]" then push TRBracket (lex fuel' rest)
      else if Ascii.eqb c ":" then push TColon (lex fuel' rest)
      else if Ascii.eqb c "," then push TComma (lex fuel' rest)
      else if Ascii.eqb c quote then
        match read_string rest with
        | Some (str, rest') => push (TStr str) (lex fuel' rest')
        | None => None
        end
      else if starts_with "true" s then push TTrue (lex fuel' (drop 4 s))
      else if starts_with "false" s then push TFalse (lex fuel' (drop 5 s))
      else if starts_with "null" s then push TNull (lex fuel' (drop 4 s))
      else
        match read_number s with
        | Some (z, rest') => push (TNum z) (lex fuel' rest')
        | None => None
        end
    end
  end.

Fixpoint parse_value (fuel : nat) (ts : list token) : option (json * list token) :=
  match fuel with
  | O => None
  | S fuel' =>
    match ts with
    | TNull :: r => Some (JNull, r)
    | TTrue :: r => Some (JBool true, r)
    | TFalse :: r => Some (JBool false, r)
    | TNum z :: r => Some (JNum z, r)
    | TStr s :: r => Some (JStr s, r)
    | TLBracket :: TRBracket :: r => Some (JArr [], r)
    | TLBracket :: r =>
      match parse_elements fuel' r with
      | Some (l, r') => Some (JArr l, r')
      | None => None
      end
    | TLBrace :: TRBrace :: r => Some (JObj [], r)
    | TLBrace :: r =>
      match parse_members fuel' r with
      | Some (l, r') => Some (JObj l, r')
      | None => None
      end
    | _ => None
    end
  end
with parse_elements (fuel : nat) (ts : list token)
  : option (list json * list token) :=
  match fuel with
  | O => None
  | S fuel' =>
    match parse_value fuel' ts with
    | Some (v, TComma :: r) =>
      match parse_elements fuel' r with
      | Some (l, r') => Some (v :: l, r')
      | None => None
      end
    | Some (v, TRBracket :: r) => Some ([v], r)
    | _ => None
    end
  end
with parse_members (fuel : nat) (ts : list token)
  : option (list (string * json) * list token) :=
  match fuel with
  | O => None
  | S fuel' =>
    match ts with
    | TStr k :: TColon :: r =>
      match parse_value fuel' r with
      | Some (v, TComma :: r') =>
        match parse_members fuel' r' with
        | Some (l, r'') => Some ((k, v) :: l, r'')
        | None => None
        end
      | Some (v, TRBrace :: r') => Some ([(k, v)], r')
      | _ => None
      end
    | _ => None
    end
  end.

Definition parse (body : string) : option json :=
  match lex (S (String.length body)) body with
  | Some ts =>
    match parse_value (2 * List.length ts + 2) ts with
    | Some (v, []) => Some v
    | _ => None
    end
  | None => None
  end.

(** *** Decoding into a [Light] *)

Definition lower (c : ascii) : ascii :=
  translate "ABCDEFGHIJKLMNOPQRSTUVWXYZ" "abcdefghijklmnopqrstuvwxyz" c.

Fixpoint fold_case (s : string) : string :=
  match s with
  | EmptyString => EmptyString
  | String c rest => String (lower c) (fold_case rest)
  end.

Definition key_is (key field : string) : bool :=
  String.eqb (fold_case key) (fold_case field).

Definition mismatch (field : string) : option string :=
  Some ("json: cannot unmarshal value into Go struct field " ++ field).

Definition first_error (e1 e2 : option string) : option string :=
  match e1 with
  | Some _ => e1
  | None => e2
  end.

Definition decode_string (field : string) (v : json) (old : string)
  : string * option string :=
  match v with
  | JStr s => (s, None)
  | JNull => (old, None)
  | _ => (old, mismatch field)
  end.

Definition decode_int (field : string) (v : json) (old : Z) : Z * option string :=
  match v with
  | JNum z =>
    if Z.leb (- 2 ^ 63) z && Z.gtb (2 ^ 63) z then (z, None)
    else (old, mismatch field)
  | JNull => (old, None)
  | _ => (old, mismatch field)
  end.

Definition decode_bool (field : string) (v : json) (old : bool)
  : bool * option string :=
  match v with
  | JBool b => (b, None)
  | JNull => (old, None)
  | _ => (old, mismatch field)
  end.

Definition decode_state_member (key : string) (v : json) (st : State_t)
  : State_t * option string :=
  if key_is key "on" then
    let '(x, e) := decode_bool "on" v (On st) in
    (mkState x (Bri st) (Hue st) (Saturation st) (Effect st) (XY st) (CT st)
             (Alert st) (ColorMode st) (Reachable st), e)
  else if key_is key "bri" then
    let '(x, e) := decode_int "bri" v (Bri st) in
    (mkState (On st) x (Hue st) (Saturation st) (Effect st) (XY st) (CT st)
             (Alert st) (ColorMode st) (Reachable st), e)
  else if key_is key "hue" then
    let '(x, e) := decode_int "hue" v (Hue st) in
    (mkState (On st) (Bri st) x (Saturation st) (Effect st) (XY st) (CT st)
             (Alert st) (ColorMode st) (Reachable st), e)
  else if key_is key "sat" then
    let '(x, e) := decode_int "sat" v (Saturation st) in
    (mkState (On st) (Bri st) (Hue st) x (Effect st) (XY st) (CT st)
             (Alert st) (ColorMode st) (Reachable st), e)
  else if key_is key "effect" then
    let '(x, e) := decode_string "effect" v (Effect st) in
    (mkState (On st) (Bri st) (Hue st) (Saturation st) x (XY st) (CT st)
             (Alert st) (ColorMode st) (Reachable st), e)
  else if key_is key "ct" then
    let '(x, e) := decode_int "ct" v (CT st) in
    (mkState (On st) (Bri st) (Hue st) (Saturation st) (Effect st) (XY st) x
             (Alert st) (ColorMode st) (Reachable st), e)
  else if key_is key "alert" then
    let '(x, e) := decode_string "alert" v (Alert st) in
    (mkState (On st) (Bri st) (Hue st) (Saturation st) (Effect st) (XY st)
             (CT st) x (ColorMode st) (Reachable st), e)
  else if key_is key "colormode" then
    let '(x, e) := decode_string "colormode" v (ColorMode st) in
    (mkState (On st) (Bri st) (Hue st) (Saturation st) (Effect st) (XY st)
             (CT st) (Alert st) x (Reachable st), e)
  else if key_is key "reachable" then
    let '(x, e) := decode_bool "reachable" v (Reachable st) in
    (mkState (On st) (Bri st) (Hue st) (Saturation st) (Effect st) (XY st)
             (CT st) (Alert st) (ColorMode st) x, e)
  else (st, None).

Fixpoint decode_state_members (members : list (string * json)) (st : State_t)
  : State_t * option string :=
  match members with
  | [] => (st, None)
  | (key, v) :: rest =>
    let '(st1, e1) := decode_state_member key v st in
    let '(st2, e2) := decode_state_members rest st1 in
    (st2, first_error e1 e2)
  end.

Definition decode_state (v : json) (st : State_t) : State_t * option string :=
  match v with
  | JObj members => decode_state_members members st
  | JNull => (st, None)
  | _ => (st, mismatch "state")
  end.

Section Decode.
Variable BridgeRef : Type.

Definition decode_member (key : string) (v : json) (l : Light BridgeRef)
  : Light BridgeRef * option string :=
  if key_is key "state" then
    let '(x, e) := decode_state v (State l) in
    (mkLight _ x (Type_ l) (Name l) (ModelID l) (ManufacturerName l)
             (UniqueID l) (SWVersion l) (Index l) (Bridge l), e)
  else if key_is key "type" then
    let '(x, e) := decode_string "type" v (Type_ l) in
    (mkLight _ (State l) x (Name l) (ModelID l) (ManufacturerName l)
             (UniqueID l) (SWVersion l) (Index l) (Bridge l), e)
  else if key_is key "name" then
    let '(x, e) := decode_string "name" v (Name l) in
    (mkLight _ (State l) (Type_ l) x (ModelID l) (ManufacturerName l)
             (UniqueID l) (SWVersion l) (Index l) (Bridge l), e)
  else if key_is key "modelid" then
    let '(x, e) := decode_string "modelid" v (ModelID l) in
    (mkLight _ (State l) (Type_ l) (Name l) x (ManufacturerName l)
             (UniqueID l) (SWVersion l) (Index l) (Bridge l), e)
  else if key_is key "manufacturername" then
    let '(x, e) := decode_string "manufacturername" v (ManufacturerName l) in
    (mkLight _ (State l) (Type_ l) (Name l) (ModelID l) x
             (UniqueID l) (SWVersion l) (Index l) (Bridge l), e)
  else if key_is key "uniqueid" then
    let '(x, e) := decode_string "uniqueid" v (UniqueID l) in
    (mkLight _ (State l) (Type_ l) (Name l) (ModelID l) (ManufacturerName l)
             x (SWVersion l) (Index l) (Bridge l), e)
  else if key_is key "swversion" then
    let '(x, e) := decode_string "swversion" v (SWVersion l) in
    (mkLight _ (State l) (Type_ l) (Name l) (ModelID l) (ManufacturerName l)
             (UniqueID l) x (Index l) (Bridge l), e)
  else if key_is key "Index" then
    let '(x, e) := decode_int "Index" v (Index l) in
    (set_Index l x, e)
  else (l, None).

Fixpoint decode_members (members : list (string * json)) (l : Light BridgeRef)
  : Light BridgeRef * option string :=
  match members with
  | [] => (l, None)
  | (key, v) :: rest =>
    let '(l1, e1) := decode_member key v l in
    let '(l2, e2) := decode_members rest l1 in
    (l2, first_error e1 e2)
  end.

(** The double of [json.Unmarshal(body, &light)]. *)
Definition Unmarshal (body : string) (light : Light BridgeRef)
  : Light BridgeRef * option string :=
  match parse body with
  | None => (light, Some "invalid character")
  | Some (JObj members) => decode_members members light
  | Some JNull => (light, None)
  | Some _ => (light, mismatch "Light")
  end.
End Decode.

(** *** The bridge and its lamps *)

Record Lamp : Set := mkLamp {
  lamp_index : Z;
  lamp_name : string;
  lamp_on : bool;
  lamp_bri : Z
}.

(** The world behind the simulated bridge:
    - [lamps], the lamps it knows;
    - [canned], bodies it serves as they are for some paths, whatever its
      lamps;
    - [calls_left], the number of calls it still answers before the network
      is lost;
    - [others], the writes another client has queued: one of them reaches
      the bridge right after each write of ours. *)
Record Net : Set := mkNet {
  lamps : list Lamp;
  canned : list (string * string);
  calls_left : nat;
  others : list (Z * LightState)
}.

Definition username : string := "newdeveloper".

Definition lamp_uri (index : Z) : string :=
  "/api/" ++ username ++ "/lights/" ++ format_d index.

Definition render_bool (b : bool) : string := if b then "true" else "false".

Definition render (l : Lamp) : string :=
  "{" ++ quoted "state" ++ ":{" ++ quoted "on" ++ ":" ++ render_bool (lamp_on l)
  ++ "," ++ quoted "bri" ++ ":" ++ format_d (lamp_bri l) ++ "},"
  ++ quoted "name" ++ ":" ++ quoted (lamp_name l) ++ "}".

(** The body the bridge answers for a resource it does not have. *)
Definition unavailable (uri : string) : string :=
  "[{" ++ quoted "error" ++ ":{" ++ quoted "type" ++ ":3,"
  ++ quoted "address" ++ ":" ++ quoted uri ++ ","
  ++ quoted "description" ++ ":"
  ++ quoted ("resource, " ++ uri ++ ", not available") ++ "}}]".

Fixpoint lookup (key : string) (table : list (string * string)) : option string :=
  match table with
  | [] => None
  | (k, v) :: rest => if String.eqb k key then Some v else lookup key rest
  end.

Definition refused : string := "connection refused".

Definition Get (bridge : nat) (uri : string) (w : Net)
  : (string * option string) * Net :=
  match calls_left w with
  | O => (("", Some refused), w)
  | S n =>
    let w' := mkNet (lamps w) (canned w) n (others w) in
    match lookup uri (canned w) with
    | Some body => ((body, None), w')
    | None =>
      match find (fun l => String.eqb (lamp_uri (lamp_index l)) uri) (lamps w) with
      | Some l => ((render l, None), w')
      | None => ((unavailable uri, None), w')
      end
    end
  end.

(** A lamp after a patch: [on] is always sent, [bri] is left out of the
    request when it is zero. *)
Definition patched (p : LightState) (l : Lamp) : Lamp :=
  mkLamp (lamp_index l) (lamp_name l) (ls_On p)
         (if Z.eqb (ls_Bri p) 0 then lamp_bri l else ls_Bri p).

Definition patch_at (index : Z) (p : LightState) (ls : list Lamp) : list Lamp :=
  map (fun l => if Z.eqb (lamp_index l) index then patched p l else l) ls.

Definition patch_uri (uri : string) (p : LightState) (ls : list Lamp) : list Lamp :=
  map (fun l => if String.eqb (lamp_uri (lamp_index l) ++ "/state") uri
                then patched p l else l) ls.

Definition Put (bridge : nat) (uri : string) (p : LightState) (w : Net)
  : option string * Net :=
  match calls_left w with
  | O => (Some refused, w)
  | S n =>
    let ours := patch_uri uri p (lamps w) in
    match others w with
    | [] => (None, mkNet ours (canned w) n [])
    | (index, q) :: rest => (None, mkNet (patch_at index q ours) (canned w) n rest)
    end
  end.

#[export] Instance env : Env := {|
  BridgeRef := nat;
  World := Net;
  Username := fun _ => username;
  bridge_Get := Get;
  bridge_Put := Put;
  json_Unmarshal := Unmarshal nat;
  sleep := fun _ w => w
|}.

(** A run from a world, with an empty journal. *)
Definition start (w : Net) : St := {| world := w; journal := [] |}.

(** *** Some worlds *)

(** The address of the one [Bridge] value of the runs. *)
Definition hub : nat := O.

(** The mirror of a lamp as [GetLightByIndex] builds it from [render]. *)
Definition mirror (index : Z) (name : string) (on : bool) (bri : Z) : Light nat :=
  mkLight nat
    (mkState on bri 0 0 "" (float32_zero, float32_zero) 0 "" "" false)
    "" name "" "" "" "" index (Some hub).

Definition house : list Lamp :=
  [mkLamp 1 "Lamp" false 100; mkLamp 2 "Desk" true 254; mkLamp 4 "Hall" true 1].

(** A house with lamps 1, 2 and 4 and none at 3, on a sound network. *)
Definition home : Net := mkNet house [] 1000 [].

(** The same house without network. *)
Definition offline : Net := mkNet house [] 0 [].

(** The same house, where the network is lost after [n] calls. *)
Definition failing_after (n : nat) : Net := mkNet house [] n [].

(** The same house, where another client switches lamp 1 off right after
    the first write. *)
Definition contended : Net := mkNet house [] 1000 [(1, LightState_On_Bri false 0)].

(** The same house, where another client writes to a lamp that is not there
    after the first two writes, and sets lamp 1 on at brightness 254 right
    after the third. *)
Definition meddled : Net :=
  mkNet house [] 1000
        [(99, LightState_On_Bri false 0); (99, LightState_On_Bri false 0);
         (1, LightState_On_Bri true 254)].

(** A body where the brightness is a string: the power flag and the name fit
    their fields, the brightness does not. *)
Definition odd_body : string :=
  "{" ++ quoted "state" ++ ":{" ++ quoted "on" ++ ":true,"
  ++ quoted "bri" ++ ":" ++ quoted "high" ++ "},"
  ++ quoted "name" ++ ":" ++ quoted "Desk" ++ "}".

(** A house whose lamp 1 is off at brightness 0, on a sound network. *)
Definition dim : Net := mkNet [mkLamp 1 "Lamp" false 0] [] 1000 [].

(** A bridge that serves [odd_body] for lamp 1. *)
Definition quirky : Net := mkNet [] [(lamp_uri 1, odd_body)] 1000 [].

(** A bridge that serves a page that is not JSON for lamp 1. *)
Definition garbled : Net := mkNet [] [(lamp_uri 1, "<html>busy</html>")] 1000 [].

(** The mirror of lamp 1 of the house, a mirror for index 3 where the house
    has no lamp, and the patch [LightState{On: true}]. *)
Definition lamp1 : Light nat := mirror 1 "Lamp" false 100.
Definition gone : Light nat := mirror 3 "Gone" true 10.
Definition switch_on : LightState := LightState_On_Bri true 0.

(** The lines printed go nowhere. *)
#[export] Instance console : Console := {| fmt_Println := fun _ w => w |}.
End Fake.

(** * Properties *)

(** ** [strings.Contains] *)

Lemma prefix_app (p rest : string) : String.prefix p (p ++ rest) = true.
Proof.
  induction p as [|c p IH]; simpl.
  - destruct rest; reflexivity.
  - destruct (Ascii.ascii_dec c c) as [_|n]; [exact IH | now elim n].
Qed.

Lemma prefix_split (p s : string) :
  String.prefix p s = true -> exists rest, s = p ++ rest.
Proof.
  revert s; induction p as [|c p IH]; intros s H.
  - exists s; reflexivity.
  - destruct s as [|d s]; simpl in H; [discriminate|].
    destruct (Ascii.ascii_dec c d) as [->|]; [|discriminate].
    destruct (IH s H) as [rest ->]. exists rest; reflexivity.
Qed.

Lemma strings_Contains_eq (s substr : string) :
  strings_Contains s substr =
  if String.prefix substr s then true
  else match s with
       | EmptyString => false
       | String _ s' => strings_Contains s' substr
       end.
Proof. destruct s; reflexivity. Qed.

(** [strings_Contains s substr] holds exactly when [substr] occurs in [s]. *)
Lemma strings_Contains_spec (s substr : string) :
  strings_Contains s substr = true <->
  exists before after, s = before ++ substr ++ after.
Proof.
  split.
  - induction s as [|c s IH]; rewrite strings_Contains_eq;
      destruct (String.prefix substr _) eqn:P; intros H.
    + destruct (prefix_split _ _ P) as [rest Eq]. exists "", rest; exact Eq.
    + discriminate H.
    + destruct (prefix_split _ _ P) as [rest Eq]. exists "", rest; exact Eq.
    + destruct (IH H) as (b & a & ->). exists (String c b), a; reflexivity.
  - intros (b & a & ->). induction b as [|c b IH]; rewrite strings_Contains_eq.
    + change ("" ++ substr ++ a) with (substr ++ a).
      rewrite prefix_app; reflexivity.
    + destruct (String.prefix substr _); [reflexivity | exact IH].
Qed.

(** ** Machine integers *)

Lemma Blink_turns_nonneg (seconds : Z) :
  0 <= seconds < 2 ^ 62 -> Blink_turns seconds = Z.to_nat (2 * seconds + 1).
Proof.
  intros H. unfold Blink_turns, int_wrap.
  replace ((seconds * 2 + 2 ^ 63) mod 2 ^ 64) with (seconds * 2 + 2 ^ 63).
  - f_equal; lia.
  - symmetry; apply Z.mod_small; lia.
Qed.

Lemma Blink_turns_neg (seconds : Z) :
  - 2 ^ 62 <= seconds < 0 -> Blink_turns seconds = O.
Proof.
  intros H. unfold Blink_turns, int_wrap.
  replace ((seconds * 2 + 2 ^ 63) mod 2 ^ 64) with (seconds * 2 + 2 ^ 63).
  - lia.
  - symmetry; apply Z.mod_small; lia.
Qed.

(** The loop variable of [Light.Blink] never reaches the largest [int]:
    [int_wrap (seconds * 2)] is even. *)
Lemma Blink_turns_no_wrap (seconds : Z) :
  Z.of_nat (Blink_turns seconds) <= 2 ^ 63 - 1.
Proof.
  unfold Blink_turns, int_wrap.
  assert (H := Z.mod_pos_bound (seconds * 2 + 2 ^ 63) (2 ^ 64) ltac:(lia)).
  assert (D := Z.div_mod (seconds * 2 + 2 ^ 63) (2 ^ 64) ltac:(lia)).
  lia.
Qed.

(** ** One fetch *)

Section Facts.
Context {E : Env}.

(** [GetLightByIndex], case by case on what the bridge answers. *)
Lemma GetLightByIndex_cases (bridge : BridgeRef) (index : Z) (s : St) :
  exists body terr w,
    bridge_Get bridge (light_uri bridge index) (world s) = ((body, terr), w) /\
    let s1 := {| world := w;
                 journal := journal s ++ [CallGet bridge (light_uri bridge index)] |} in
    GetLightByIndex bridge index s =
    match terr with
    | Some e => Done (Light_zero, Some (BridgeError e)) s1
    | None =>
      if strings_Contains body "not available"
      then Done (Light_zero, Some (errors_New "Index Error")) s1
      else
        let decoded := json_Unmarshal body Light_zero in
        Done (set_Bridge (set_Index (fst decoded) index) (Some bridge), None)
             match snd decoded with
             | Some e => {| world := w;
                            journal := journal s1 ++ [CallTrace (JsonError e)] |}
             | None => s1
             end
    end.
Proof.
  destruct (bridge_Get bridge (light_uri bridge index) (world s))
    as [[body terr] w] eqn:G.
  exists body, terr, w. split; [reflexivity|].
  unfold GetLightByIndex, bind, Bridge_Get, record, ret, json_Unmarshal_into.
  rewrite G. destruct terr as [e|]; simpl; [reflexivity|].
  destruct (strings_Contains body "not available"); [reflexivity|].
  destruct (json_Unmarshal body Light_zero) as [l [e|]]; reflexivity.
Qed.

(** A fetch always comes back. *)
Lemma GetLightByIndex_returns (bridge : BridgeRef) (index : Z) (s : St) :
  exists light err s', GetLightByIndex bridge index s = Done (light, err) s'.
Proof.
  destruct (GetLightByIndex_cases bridge index s) as (body & terr & w & _ & H).
  simpl in H. rewrite H. destruct terr; [eauto|].
  destruct (strings_Contains body "not available"); eauto.
Qed.

(** A fetch that fails gives the zero [Light]. *)
Lemma GetLightByIndex_failure (bridge : BridgeRef) (index : Z) (s s' : St)
    (light : Light BridgeRef) (e : error) :
  GetLightByIndex bridge index s = Done (light, Some e) s' ->
  light = Light_zero.
Proof.
  destruct (GetLightByIndex_cases bridge index s) as (body & terr & w & _ & H).
  simpl in H. rewrite H. destruct terr; [congruence|].
  destruct (strings_Contains body "not available"); congruence.
Qed.

(** A fetch that succeeds gives the decoded body, with index and bridge set. *)
Lemma GetLightByIndex_success (bridge : BridgeRef) (index : Z) (s s' : St)
    (light : Light BridgeRef) :
  GetLightByIndex bridge index s = Done (light, None) s' ->
  exists body w,
    bridge_Get bridge (light_uri bridge index) (world s) = ((body, None), w) /\
    strings_Contains body "not available" = false /\
    light = set_Bridge (set_Index (fst (json_Unmarshal body Light_zero)) index)
                       (Some bridge) /\
    Index light = index /\ Bridge light = Some bridge /\ world s' = w.
Proof.
  destruct (GetLightByIndex_cases bridge index s) as (body & terr & w & G & H).
  simpl in H. rewrite H. destruct terr; [congruence|].
  destruct (strings_Contains body "not available") eqn:C; [congruence|].
  intros Eq. inversion Eq; subst. exists body, w.
  repeat split; try assumption; try reflexivity.
  destruct (snd (json_Unmarshal body Light_zero)); reflexivity.
Qed.

Lemma gets_app (j1 j2 : list (Event BridgeRef)) :
  gets (j1 ++ j2) = (gets j1 ++ gets j2)%list.
Proof.
  induction j1 as [|[] j1 IH]; simpl; rewrite ?IH; reflexivity.
Qed.

Lemma puts_app (j1 j2 : list (Event BridgeRef)) :
  puts (j1 ++ j2) = (puts j1 ++ puts j2)%list.
Proof.
  induction j1 as [|[] j1 IH]; simpl; rewrite ?IH; reflexivity.
Qed.

Lemma sleeps_app (j1 j2 : list (Event BridgeRef)) :
  sleeps (j1 ++ j2) = (sleeps j1 ++ sleeps j2)%list.
Proof.
  induction j1 as [|[] j1 IH]; simpl; rewrite ?IH; reflexivity.
Qed.

(** What a fetch adds to the journal: its [Get], and nothing else that is a
    call on the bridge or a sleep. *)
Lemma GetLightByIndex_journal (bridge : BridgeRef) (index : Z) (s s' : St)
    (r : Light BridgeRef * option error) :
  GetLightByIndex bridge index s = Done r s' ->
  gets (journal s') = (gets (journal s) ++ [light_uri bridge index])%list /\
  puts (journal s') = puts (journal s) /\
  sleeps (journal s') = sleeps (journal s).
Proof.
  destruct (GetLightByIndex_cases bridge index s) as (body & terr & w & _ & H).
  simpl in H. rewrite H.
  set (j1 := (journal s ++ [CallGet bridge (light_uri bridge index)])%list) in *.
  assert (Base :
    gets j1 = (gets (journal s) ++ [light_uri bridge index])%list /\
    puts j1 = puts (journal s) /\ sleeps j1 = sleeps (journal s)).
  { unfold j1. rewrite gets_app, puts_app, sleeps_app; simpl.
    rewrite !app_nil_r. auto. }
  destruct terr as [e|].
  { intros Eq; inversion Eq; subst; exact Base. }
  destruct (strings_Contains body "not available").
  { intros Eq; inversion Eq; subst; exact Base. }
  destruct (snd (json_Unmarshal body Light_zero));
    intros Eq; inversion Eq; subst; simpl; [|exact Base].
  rewrite gets_app, puts_app, sleeps_app; simpl. rewrite !app_nil_r.
  exact Base.
Qed.

(** ** One write-then-read *)

(** [SetState] on a mirror without bridge panics. *)
Lemma SetState_nil (light : Light BridgeRef) (newState : LightState) (s : St) :
  Bridge light = None -> SetState light newState s = Panic.
Proof. intros H. unfold SetState. rewrite H. reflexivity. Qed.

(** [SetState] when the [Put] fails. *)
Lemma SetState_put_failed (light : Light BridgeRef) (newState : LightState)
    (s : St) (bridge : BridgeRef) (e : string) (w : World) :
  Bridge light = Some bridge ->
  bridge_Put bridge (state_uri bridge (Index light)) newState (world s) = (Some e, w) ->
  SetState light newState s =
  Done (light, Some (BridgeError e))
       {| world := w;
          journal := journal s
                     ++ [CallPut bridge (state_uri bridge (Index light)) newState] |}.
Proof.
  intros HB HP. unfold SetState. rewrite HB.
  unfold bind, Bridge_Put, record. rewrite HP. reflexivity.
Qed.

(** [SetState] when the [Put] succeeds: the mirror and the error are those of
    the fetch that follows. *)
Lemma SetState_put_ok (light : Light BridgeRef) (newState : LightState)
    (s : St) (bridge : BridgeRef) (w : World) :
  Bridge light = Some bridge ->
  bridge_Put bridge (state_uri bridge (Index light)) newState (world s) = (None, w) ->
  SetState light newState s =
  GetLightByIndex bridge (Index light)
    {| world := w;
       journal := journal s
                  ++ [CallPut bridge (state_uri bridge (Index light)) newState] |}.
Proof.
  intros HB HP. unfold SetState. rewrite HB.
  unfold bind at 1. unfold Bridge_Put, record. rewrite HP. simpl.
  unfold bind.
  match goal with |- context [GetLightByIndex ?b ?i ?st] =>
    destruct (GetLightByIndex_returns b i st) as (l & err & s2 & ->) end.
  destruct err; reflexivity.
Qed.

(** A [SetState] that succeeds, taken apart. *)
Lemma SetState_success (light light' : Light BridgeRef) (newState : LightState)
    (s s' : St) :
  SetState light newState s = Done (light', None) s' ->
  exists bridge w,
    Bridge light = Some bridge /\
    bridge_Put bridge (state_uri bridge (Index light)) newState (world s)
    = (None, w) /\
    GetLightByIndex bridge (Index light)
      {| world := w;
         journal := journal s
                    ++ [CallPut bridge (state_uri bridge (Index light)) newState] |}
    = Done (light', None) s' /\
    Index light' = Index light /\ Bridge light' = Bridge light.
Proof.
  intros H. destruct (Bridge light) as [bridge|] eqn:HB.
  2:{ rewrite SetState_nil in H by assumption. discriminate. }
  destruct (bridge_Put bridge (state_uri bridge (Index light)) newState (world s))
    as [[e|] w] eqn:HP.
  { rewrite (SetState_put_failed _ _ _ _ _ _ HB HP) in H. discriminate. }
  rewrite (SetState_put_ok _ _ _ _ _ HB HP) in H.
  exists bridge, w. repeat split; try assumption.
  - destruct (GetLightByIndex_success _ _ _ _ _ H) as (_ & _ & _ & _ & _ & Hi & _).
    exact Hi.
  - destruct (GetLightByIndex_success _ _ _ _ _ H) as (_ & _ & _ & _ & _ & _ & Hb & _).
    exact Hb.
Qed.

(** What a [SetState] that succeeds adds to the journal. *)
Lemma SetState_journal (light light' : Light BridgeRef) (newState : LightState)
    (s s' : St) :
  SetState light newState s = Done (light', None) s' ->
  puts (journal s') = (puts (journal s) ++ [newState])%list /\
  sleeps (journal s') = sleeps (journal s).
Proof.
  intros H. destruct (SetState_success _ _ _ _ _ H) as (b & w & _ & _ & G & _).
  destruct (GetLightByIndex_journal _ _ _ _ _ G) as (_ & P & S).
  simpl in P, S. rewrite puts_app in P. rewrite sleeps_app in S. simpl in P, S.
  rewrite app_nil_r in S. auto.
Qed.

(** ** The claims on [GetLightByIndex] and [SetState] *)

(** C4.  [GetLightByIndex] fails with the error "Index Error" exactly when
    the [Get] succeeded and the marker "not available" occurs in the body; it
    fails at all exactly when the [Get] failed, in which case it hands over
    the error of the [Get], or the marker occurs; when the [Get] succeeded
    and the marker is absent it decodes the body and succeeds, with the
    requested index and the given bridge in the mirror. *)
Theorem GetLightByIndex_index_error (bridge : BridgeRef) (index : Z) (s : St) :
  exists body terr w light err s',
    bridge_Get bridge (light_uri bridge index) (world s) = ((body, terr), w) /\
    GetLightByIndex bridge index s = Done (light, err) s' /\
    (err = Some (errors_New "Index Error") <->
     terr = None /\ occurs_in "not available" body) /\
    (err <> None <-> terr <> None \/ occurs_in "not available" body) /\
    (forall e, terr = Some e -> err = Some (BridgeError e)) /\
    (terr = None -> ~ occurs_in "not available" body ->
     err = None /\
     light = set_Bridge (set_Index (fst (json_Unmarshal body Light_zero)) index)
                        (Some bridge) /\
     Index light = index /\ Bridge light = Some bridge).
Proof.
  destruct (GetLightByIndex_cases bridge index s) as (body & terr & w & G & H).
  simpl in H. exists body, terr, w.
  assert (C := strings_Contains_spec body "not available").
  fold (occurs_in "not available" body) in C.
  destruct terr as [e|].
  { do 3 eexists. split; [exact G|]. split; [exact H|].
    split; [split; [intros Eq; discriminate Eq | intros [T _]; discriminate T]|].
    split; [split; [intros _; left; discriminate | intros _; discriminate]|].
    split; [intros e' Eq; inversion Eq; reflexivity|].
    intros T; discriminate T. }
  destruct (strings_Contains body "not available") eqn:M.
  { assert (O : occurs_in "not available" body) by (apply C; reflexivity).
    do 3 eexists. split; [exact G|]. split; [exact H|].
    split; [split; [intros _; split; [reflexivity | exact O] | reflexivity]|].
    split; [split; [intros _; right; exact O | intros _; discriminate]|].
    split; [intros e' Eq; discriminate Eq|].
    intros _ N; contradiction. }
  assert (N : ~ occurs_in "not available" body).
  { intros O. apply C in O. congruence. }
  do 3 eexists. split; [exact G|]. split; [exact H|].
  split; [split; [intros Eq; discriminate Eq | intros [_ O]; contradiction]|].
  split; [split; [intros Hn; elim Hn; reflexivity
                 | intros [T|O]; [elim T; reflexivity | contradiction]]|].
  split; [intros e' Eq; discriminate Eq|].
  intros _ _. repeat split.
Qed.

(** C5.  When the [Put] of [SetState] fails, [SetState] returns the error of
    the [Put] and the mirror is what it was; no fetch is made. *)
Theorem SetState_put_error (light : Light BridgeRef) (newState : LightState)
    (s : St) (bridge : BridgeRef) (e : string) (w : World) :
  Bridge light = Some bridge ->
  bridge_Put bridge (state_uri bridge (Index light)) newState (world s) = (Some e, w) ->
  exists s',
    SetState light newState s = Done (light, Some (BridgeError e)) s' /\
    world s' = w /\ gets (journal s') = gets (journal s).
Proof.
  intros HB HP. eexists. split; [apply (SetState_put_failed _ _ _ _ _ _ HB HP)|].
  simpl. split; [reflexivity|].
  rewrite gets_app; simpl. apply app_nil_r.
Qed.

(** C9.  When the [Put] of [SetState] succeeds and the fetch that follows
    fails, the mirror is the zero [Light] when [SetState] returns the error
    of the fetch: its attributes are zero, its index is 0 and its bridge is
    nil. *)
Theorem SetState_fetch_error (light junk : Light BridgeRef)
    (newState : LightState) (s s' : St) (bridge : BridgeRef) (e : error)
    (w : World) :
  Bridge light = Some bridge ->
  bridge_Put bridge (state_uri bridge (Index light)) newState (world s) = (None, w) ->
  GetLightByIndex bridge (Index light)
    {| world := w;
       journal := journal s
                  ++ [CallPut bridge (state_uri bridge (Index light)) newState] |}
  = Done (junk, Some e) s' ->
  SetState light newState s = Done (Light_zero, Some e) s' /\
  State (@Light_zero BridgeRef) = State_zero /\
  Name (@Light_zero BridgeRef) = "" /\
  Index (@Light_zero BridgeRef) = 0 /\
  Bridge (@Light_zero BridgeRef) = None.
Proof.
  intros HB HP HG. rewrite (SetState_put_ok _ _ _ _ _ HB HP), HG.
  rewrite (GetLightByIndex_failure _ _ _ _ _ _ HG). repeat split.
Qed.

(** C10, amended.  When the [Get] succeeds, the marker is absent and the
    decoder fails, [GetLightByIndex] logs the failure and returns no error;
    the mirror holds what the decoder has left in the zero [Light], with the
    index and the bridge set: all attributes are zero when the decoder has
    stored nothing. *)
Theorem GetLightByIndex_decode_error (bridge : BridgeRef) (index : Z) (s : St)
    (body : string) (w : World) (decoded : Light BridgeRef) (e : string) :
  bridge_Get bridge (light_uri bridge index) (world s) = ((body, None), w) ->
  strings_Contains body "not available" = false ->
  json_Unmarshal body Light_zero = (decoded, Some e) ->
  GetLightByIndex bridge index s =
  Done (set_Bridge (set_Index decoded index) (Some bridge), None)
       {| world := w;
          journal := journal s ++ [CallGet bridge (light_uri bridge index);
                                   CallTrace (JsonError e)] |} /\
  (decoded = Light_zero ->
   set_Bridge (set_Index decoded index) (Some bridge)
   = mkLight BridgeRef State_zero "" "" "" "" "" "" index (Some bridge)).
Proof.
  intros HG HM HD.
  destruct (GetLightByIndex_cases bridge index s) as (b' & t' & w' & G & H).
  rewrite HG in G. inversion G; subst b' t' w'. simpl in H.
  rewrite HM, HD in H. simpl in H. rewrite <- app_assoc in H. simpl in H.
  split; [exact H|]. intros ->. reflexivity.
Qed.

(** C1, amended.  When [SetState] succeeds, the mirror is, as a whole, what
    the fetch made after the [Put] has decoded from the body it got, with the
    index and the bridge the mirror had before the call; nothing of the
    former attributes nor of the patch is kept, so that the power flag is the
    one the bridge reports, whatever the patch asked for. *)
Theorem SetState_replaces (light light' : Light BridgeRef)
    (newState : LightState) (s s' : St) :
  SetState light newState s = Done (light', None) s' ->
  exists bridge w body w',
    Bridge light = Some bridge /\
    bridge_Put bridge (state_uri bridge (Index light)) newState (world s)
    = (None, w) /\
    bridge_Get bridge (light_uri bridge (Index light)) w = ((body, None), w') /\
    light' = set_Bridge (set_Index (fst (json_Unmarshal body Light_zero))
                                   (Index light)) (Bridge light) /\
    Index light' = Index light /\
    Bridge light' = Bridge light /\
    On (State light') = On (State (fst (json_Unmarshal body Light_zero))).
Proof.
  intros H.
  destruct (SetState_success _ _ _ _ _ H) as (b & w & HB & HP & G & Hi & Hb).
  destruct (GetLightByIndex_success _ _ _ _ _ G)
    as (body & w' & HG & _ & Eq & _ & _ & _).
  simpl in HG. exists b, w, body, w'. rewrite HB.
  repeat split; try assumption.
  - congruence.
  - rewrite Eq; reflexivity.
Qed.

(** ** The loops *)

Lemma int_wrap_small (z : Z) : - 2 ^ 63 <= z < 2 ^ 63 -> int_wrap z = z.
Proof.
  intros H. unfold int_wrap. rewrite Z.mod_small by lia. lia.
Qed.

(** The loop of [GetAllLights] makes the turns the condition [index < 101]
    allows: 100 from index 1 on. *)
Lemma GetAllLights_loop_for (n : nat) (bridge : BridgeRef) :
  forall (fuel : nat) (index : Z) (lights : list (Light BridgeRef)) (s : St),
    (n <= fuel)%nat -> 1 <= index -> Z.of_nat n = 101 - index ->
    GetAllLights_loop fuel bridge index lights s
    = finished (GetAllLights_for n bridge index lights s).
Proof.
  induction n as [|n IH]; intros fuel index lights s Hf Hi Hn.
  - assert (Hc : Z.ltb index 101 = false) by (apply Z.ltb_ge; lia).
    destruct fuel; simpl; rewrite Hc; reflexivity.
  - assert (Hc : Z.ltb index 101 = true) by (apply Z.ltb_lt; lia).
    destruct fuel as [|fuel]; [lia|]. simpl. rewrite Hc.
    unfold bind.
    destruct (GetLightByIndex bridge index s) as [[l [e|]] s1|];
      try reflexivity.
    rewrite int_wrap_small by lia. apply IH; lia.
Qed.

(** The loop of [Light.Blink] makes the turns the condition
    [i <= seconds*2] allows: [Blink_turns seconds] from [i = 0] on. *)
Lemma Blink_loop_for (n : nat) (seconds : Z) :
  forall (fuel : nat) (i : Z) (light : Light BridgeRef) (s : St),
    (n <= fuel)%nat -> 0 <= i ->
    Z.of_nat n = Z.max 0 (int_wrap (seconds * 2) + 1 - i) ->
    Blink_loop fuel seconds i light s = finished (Blink_for n i light s).
Proof.
  assert (B := Blink_turns_no_wrap seconds). unfold Blink_turns in B.
  induction n as [|n IH]; intros fuel i light s Hf Hi Hn.
  - assert (Hc : Z.leb i (int_wrap (seconds * 2)) = false)
      by (apply Z.leb_gt; lia).
    destruct fuel; simpl; rewrite Hc; reflexivity.
  - assert (Hc : Z.leb i (int_wrap (seconds * 2)) = true)
      by (apply Z.leb_le; lia).
    destruct fuel as [|fuel]; [lia|]. simpl. rewrite Hc.
    unfold bind, time_Sleep.
    destruct (Blink_step i light s) as [[l [e|]] s1|]; try reflexivity.
    rewrite int_wrap_small by lia. apply IH; lia.
Qed.

Lemma Blink_loop_turns (seconds : Z) (light : Light BridgeRef) (s : St) :
  Blink_loop (Blink_turns seconds) seconds 0 light s
  = finished (Blink_for (Blink_turns seconds) 0 light s).
Proof.
  apply Blink_loop_for; unfold Blink_turns; lia.
Qed.

Lemma GetAllLights_loop_turns (bridge : BridgeRef) (s : St) :
  GetAllLights_loop 100 bridge 1 [] s
  = finished (GetAllLights_for 100 bridge 1 [] s).
Proof.
  apply GetAllLights_loop_for; lia.
Qed.

(** ** The scan *)

(** The loop of [GetAllLights] does what [Scan] says, from the index that
    leaves it [n] turns. *)
Lemma GetAllLights_for_Scan (n : nat) (bridge : BridgeRef) :
  forall (index : Z) (acc : list (Light BridgeRef)) (s : St),
    index = 101 - Z.of_nat n ->
    exists lights s',
      GetAllLights_for n bridge index acc s = Done (acc ++ lights)%list s' /\
      Scan bridge index s lights s'.
Proof.
  induction n as [|n IH]; intros index acc s Hi.
  - exists [], s. simpl. rewrite app_nil_r. split; [reflexivity|].
    replace index with 101 by lia. constructor.
  - destruct (GetLightByIndex_returns bridge index s) as (l & err & s1 & G).
    simpl. unfold bind at 1. rewrite G. destruct err as [e|].
    + exists [], s1. rewrite app_nil_r. split; [reflexivity|].
      apply Scan_gap with (junk := l) (e := e); [lia | exact G].
    + destruct (IH (index + 1) (acc ++ [l])%list s1 ltac:(lia))
        as (lights & s' & Run & Sc).
      exists (l :: lights), s'. split.
      * rewrite Run, <- app_assoc. reflexivity.
      * apply Scan_found with (s1 := s1); [lia | exact G | exact Sc].
Qed.

(** [Scan] leaves no choice. *)
Lemma Scan_functional (bridge : BridgeRef) (index : Z) (s s1 s2 : St)
    (lights1 lights2 : list (Light BridgeRef)) :
  Scan bridge index s lights1 s1 -> Scan bridge index s lights2 s2 ->
  lights1 = lights2 /\ s1 = s2.
Proof.
  intros Sc1. revert lights2 s2.
  induction Sc1 as [s | index s junk e s' Hi G
                   | index s light sa lights s' Hi G Sc1 IH];
    intros lights2 s2 Sc2.
  - inversion Sc2 as [? | ? ? ? ? ? Hi2 G2 | ? ? ? ? ? ? Hi2 G2 Sc2']; subst;
      [auto | lia | lia].
  - inversion Sc2 as [? | ? ? ? ? ? Hi2 G2 | ? ? ? ? ? ? Hi2 G2 Sc2']; subst.
    + lia.
    + rewrite G in G2. inversion G2; auto.
    + rewrite G in G2. discriminate G2.
  - inversion Sc2 as [? | ? ? ? ? ? Hi2 G2 | ? ? ? ? ? ? Hi2 G2 Sc2']; subst.
    + lia.
    + rewrite G in G2. discriminate G2.
    + rewrite G in G2. inversion G2; subst.
      destruct (IH _ _ Sc2') as [-> ->]. auto.
Qed.

(** The mirrors of a scan carry the consecutive indices, in ascending
    order. *)
Lemma Scan_indices (bridge : BridgeRef) (index : Z) (s s' : St)
    (lights : list (Light BridgeRef)) :
  Scan bridge index s lights s' ->
  forall k light, nth_error lights k = Some light ->
                  Index light = index + Z.of_nat k /\ Bridge light = Some bridge.
Proof.
  induction 1 as [s | index s junk e s' Hi G
                 | index s light sa lights s' Hi G Sc IH];
    intros k l Hk.
  - destruct k; discriminate.
  - destruct k; discriminate.
  - destruct k as [|k]; simpl in Hk.
    + inversion Hk; subst l.
      destruct (GetLightByIndex_success _ _ _ _ _ G) as (_ & _ & _ & _ & _ & Ix & B & _).
      split; [lia | exact B].
    + destruct (IH k l Hk) as [Ix B]. split; [lia | exact B].
Qed.

(** The fetches of a scan: the [n] consecutive indices from the first one
    on, never past 100, and at least as many as the mirrors found. *)
Lemma Scan_gets (bridge : BridgeRef) (index : Z) (s s' : St)
    (lights : list (Light BridgeRef)) :
  Scan bridge index s lights s' ->
  exists n,
    gets (journal s')
    = (gets (journal s) ++ map (light_uri bridge) (indices index n))%list /\
    (List.length lights <= n)%nat /\ index + Z.of_nat n <= 101.
Proof.
  induction 1 as [s | index s junk e s' Hi G
                 | index s light sa lights s' Hi G Sc IH].
  - exists O. simpl. rewrite app_nil_r. repeat split; lia.
  - exists 1%nat. destruct (GetLightByIndex_journal _ _ _ _ _ G) as (Gs & _).
    simpl. repeat split; [exact Gs | lia | lia].
  - destruct IH as (n & Gs & Len & Bound).
    destruct (GetLightByIndex_journal _ _ _ _ _ G) as (Gs1 & _).
    exists (S n). simpl. rewrite Gs, Gs1, <- app_assoc. simpl.
    repeat split; lia.
Qed.

(** [GetAllLights] runs the scan from index 1 and returns no error. *)
Lemma GetAllLights_Scan (bridge : BridgeRef) (s : St) :
  exists lights s',
    GetAllLights bridge s = Done (lights, None) s' /\
    Scan bridge 1 s lights s'.
Proof.
  destruct (GetAllLights_for_Scan 100 bridge 1 [] s ltac:(reflexivity))
    as (lights & s' & Run & Sc).
  exists lights, s'. split; [|exact Sc].
  unfold GetAllLights, bind. rewrite Run. reflexivity.
Qed.

(** C2.  [GetAllLights] probes the indices one after the other from 1 and
    stops at the first one whose fetch fails: it returns exactly the mirrors
    of the successful fetches made until then, which carry the indices 1, 2,
    ... in that order.  When the fetches of 1 and 2 succeed and that of 3
    fails, it returns the two mirrors of 1 and 2, whatever is at index 4. *)
Theorem GetAllLights_first_gap (bridge : BridgeRef) (s : St) :
  exists lights s',
    GetAllLights bridge s = Done (lights, None) s' /\
    Scan bridge 1 s lights s' /\
    (forall lights2 s2, Scan bridge 1 s lights2 s2 -> lights2 = lights /\ s2 = s') /\
    (forall k light, nth_error lights k = Some light ->
                     Index light = 1 + Z.of_nat k) /\
    (forall l1 l2 junk e s1 s2 s3,
        GetLightByIndex bridge 1 s = Done (l1, None) s1 ->
        GetLightByIndex bridge 2 s1 = Done (l2, None) s2 ->
        GetLightByIndex bridge 3 s2 = Done (junk, Some e) s3 ->
        lights = [l1; l2] /\ s' = s3).
Proof.
  destruct (GetAllLights_Scan bridge s) as (lights & s' & Run & Sc).
  exists lights, s'. split; [exact Run|]. split; [exact Sc|].
  split; [|split].
  - intros lights2 s2 Sc2. apply (Scan_functional _ _ _ _ _ _ _ Sc2 Sc).
  - intros k light Hk. apply (Scan_indices _ _ _ _ _ Sc k light Hk).
  - intros l1 l2 junk e s1 s2 s3 G1 G2 G3.
    apply (Scan_functional _ _ _ _ _ _ _ Sc).
    apply Scan_found with (s1 := s1); [lia | exact G1|].
    apply Scan_found with (s1 := s2); [lia | exact G2|].
    apply Scan_gap with (junk := junk) (e := e); [lia | exact G3].
Qed.

(** C8.  [GetAllLights] always returns, with a nil error; what it fetches are
    the indices 1 to [n] for some [n] not above 100, and it returns at most
    [n] mirrors: none, without error, when the first fetch fails. *)
Theorem GetAllLights_no_error (bridge : BridgeRef) (s : St) :
  exists lights s' n,
    GetAllLights bridge s = Done (lights, None) s' /\
    (n <= 100)%nat /\
    (List.length lights <= n)%nat /\
    gets (journal s')
    = (gets (journal s) ++ map (light_uri bridge) (indices 1 n))%list /\
    (forall junk e s1,
        GetLightByIndex bridge 1 s = Done (junk, Some e) s1 -> lights = []).
Proof.
  destruct (GetAllLights_Scan bridge s) as (lights & s' & Run & Sc).
  destruct (Scan_gets _ _ _ _ _ Sc) as (n & Gs & Len & Bound).
  exists lights, s', n. repeat split; try assumption; try lia.
  intros junk e s1 G.
  assert (Sc0 : Scan bridge 1 s [] s1)
    by (apply Scan_gap with (junk := junk) (e := e); [lia | exact G]).
  apply (Scan_functional _ _ _ _ _ _ _ Sc Sc0).
Qed.

(** ** The lookup by name *)

Lemma GetLightByName_range_FirstNamed (lights : list (Light BridgeRef))
    (name : string) :
  exists found,
    FirstNamed name lights found /\
    GetLightByName_range lights name =
    match found with
    | Some light => (light, None)
    | None => (Light_zero, Some (errors_New "Light not found."))
    end.
Proof.
  induction lights as [|l rest (found & F & Eq)]; simpl.
  - exists None. split; [constructor | reflexivity].
  - destruct (String.eqb_spec (Name l) name) as [Hn|Hn].
    + exists (Some l). split; [constructor; exact Hn | reflexivity].
    + exists found. split; [constructor; assumption | exact Eq].
Qed.

Lemma FirstNamed_None (name : string) (lights : list (Light BridgeRef))
    (found : option (Light BridgeRef)) :
  FirstNamed name lights found ->
  (found = None <-> forall l, In l lights -> Name l <> name).
Proof.
  induction 1 as [|l rest Hn|l rest found Hn F IH].
  - split; [intros _ l [] | reflexivity].
  - split; [discriminate|]. intros H. elim (H l); [left; reflexivity | exact Hn].
  - split.
    + intros Eq l' [<-|Hin]; [exact Hn | apply IH; assumption].
    + intros H. apply IH. intros l' Hin. apply H. right; exact Hin.
Qed.

Lemma FirstNamed_Some (name : string) (lights : list (Light BridgeRef))
    (found : option (Light BridgeRef)) :
  FirstNamed name lights found ->
  forall l, found = Some l ->
    exists before after,
      lights = (before ++ l :: after)%list /\ Name l = name /\
      forall l', In l' before -> Name l' <> name.
Proof.
  induction 1 as [|l rest Hn|l rest found Hn F IH]; intros l0 Eq.
  - discriminate.
  - inversion Eq; subst l0. exists [], rest. repeat split; [exact Hn|].
    intros l' [].
  - destruct (IH l0 Eq) as (before & after & -> & Hn0 & Hb).
    exists (l :: before), after. repeat split; [exact Hn0|].
    intros l' [<-|Hin]; [exact Hn | apply Hb; exact Hin].
Qed.

(** C7.  [GetLightByName] runs [GetAllLights] and returns, without error, the
    first of its mirrors whose name is the given one character for
    character; it fails with the error "Light not found." exactly when no
    mirror has that very name. *)
Theorem GetLightByName_exact (bridge : BridgeRef) (name : string) (s : St) :
  exists lights s' light err,
    GetAllLights bridge s = Done (lights, None) s' /\
    GetLightByName bridge name s = Done (light, err) s' /\
    (err = Some (errors_New "Light not found.") <->
     forall l, In l lights -> Name l <> name) /\
    (err = None \/ err = Some (errors_New "Light not found.")) /\
    (err = None ->
     exists before after,
       lights = (before ++ light :: after)%list /\ Name light = name /\
       forall l, In l before -> Name l <> name).
Proof.
  destruct (GetAllLights_Scan bridge s) as (lights & s' & Run & _).
  destruct (GetLightByName_range_FirstNamed lights name) as (found & F & Eq).
  assert (N := FirstNamed_None _ _ _ F).
  assert (S := FirstNamed_Some _ _ _ F).
  assert (Run2 : GetLightByName bridge name s
                 = Done (GetLightByName_range lights name) s').
  { unfold GetLightByName, bind. rewrite Run. reflexivity. }
  rewrite Eq in Run2. destruct found as [l|].
  - exists lights, s', l, None. split; [exact Run|]. split; [exact Run2|].
    split; [split; [discriminate | intros H; apply N in H; discriminate]|].
    split; [left; reflexivity|]. intros _. apply S; reflexivity.
  - exists lights, s', Light_zero, (Some (errors_New "Light not found.")).
    split; [exact Run|]. split; [exact Run2|].
    split; [split; [intros _; apply N; reflexivity | reflexivity]|].
    split; [right; reflexivity | discriminate].
Qed.

(** ** [Blink] *)

Lemma even_of_nat (k : nat) : Z.even (Z.of_nat k) = Nat.even k.
Proof.
  induction k as [|k IH]; [reflexivity|].
  rewrite Nat2Z.inj_succ, Z.even_succ, Nat.even_succ.
  rewrite <- Z.negb_even, <- Nat.negb_even, IH. reflexivity.
Qed.

(** The patch of a turn of the loop is the one [oscillation] names. *)
Lemma Blink_step_oscillation (k : nat) (light : Light BridgeRef) :
  Blink_step (Z.of_nat k) light = SetState light (oscillation k).
Proof.
  unfold Blink_step, oscillation.
  rewrite Z.rem_mod_nonneg by lia.
  rewrite <- Zeven_mod, even_of_nat. destruct (Nat.even k); reflexivity.
Qed.

(** A loop of [n] turns that comes back without error has applied the [n]
    patches of the oscillation and slept [n] times half a second. *)
Lemma Blink_for_journal (n : nat) :
  forall (k : nat) (light l1 : Light BridgeRef) (s s1 : St),
    Blink_for n (Z.of_nat k) light s = Done (l1, None) s1 ->
    puts (journal s1) = (puts (journal s) ++ map oscillation (seq k n))%list /\
    sleeps (journal s1)
    = (sleeps (journal s) ++ repeat (Z.quot time_Second 2) n)%list /\
    Index l1 = Index light /\ Bridge l1 = Bridge light.
Proof.
  induction n as [|n IH]; intros k light l1 s s1 Run.
  - simpl in Run. unfold ret in Run. inversion Run; subst.
    simpl. rewrite !app_nil_r. auto.
  - simpl in Run. unfold bind at 1 in Run.
    rewrite Blink_step_oscillation in Run.
    destruct (SetState light (oscillation k) s) as [[l2 [e|]] s2|] eqn:St1;
      try discriminate Run.
    unfold bind, time_Sleep, record in Run.
    replace (Z.of_nat k + 1) with (Z.of_nat (S k)) in Run by lia.
    apply IH in Run. simpl in Run. destruct Run as (P & Sl & Ix & B).
    destruct (SetState_journal _ _ _ _ _ St1) as (P1 & Sl1).
    destruct (SetState_success _ _ _ _ _ St1) as (_ & _ & _ & _ & _ & Ix1 & B1).
    rewrite puts_app in P. rewrite sleeps_app in Sl. simpl in P, Sl.
    rewrite app_nil_r, P1 in P. rewrite Sl1 in Sl.
    rewrite <- !app_assoc in P. rewrite <- !app_assoc in Sl.
    simpl. repeat split; [exact P | exact Sl | congruence | congruence].
Qed.

(** The first part of [Blink]: one opening [blinkMax], then the loop. *)
Lemma Blink_oscillate_journal (light l1 : Light BridgeRef) (seconds : Z)
    (s s1 : St) :
  Blink_oscillate light seconds s = Done (l1, None) s1 ->
  puts (journal s1)
  = (puts (journal s)
     ++ blinkMax :: map oscillation (seq 0 (Blink_turns seconds)))%list /\
  sleeps (journal s1)
  = (sleeps (journal s)
     ++ repeat (Z.quot time_Second 2) (Blink_turns seconds))%list /\
  Index l1 = Index light /\ Bridge l1 = Bridge light.
Proof.
  unfold Blink_oscillate, bind. intros Run.
  destruct (SetState light blinkMax s) as [[l2 [e|]] s2|] eqn:St1;
    try discriminate Run.
  apply (Blink_for_journal _ O) in Run. destruct Run as (P & Sl & Ix & B).
  destruct (SetState_journal _ _ _ _ _ St1) as (P1 & Sl1).
  destruct (SetState_success _ _ _ _ _ St1) as (_ & _ & _ & _ & _ & Ix1 & B1).
  rewrite P1, <- app_assoc in P. rewrite Sl1 in Sl.
  repeat split; [exact P | exact Sl | congruence | congruence].
Qed.

Lemma Blink_changed_false (light : Light BridgeRef) (on : bool) (bri : Z) :
  Blink_changed light on bri = false <->
  On (State light) = on /\ Bri (State light) = bri.
Proof.
  unfold Blink_changed. rewrite orb_false_iff, !negb_false_iff.
  rewrite Z.eqb_eq, eqb_true_iff. tauto.
Qed.

(** [Blink], taken apart when it returns no error. *)
Lemma Blink_success (light light' : Light BridgeRef) (seconds : Z) (s s' : St) :
  Blink light seconds s = Done (light', None) s' ->
  exists l1 s1,
    Blink_oscillate light seconds s = Done (l1, None) s1 /\
    if Blink_changed l1 (On (State light)) (Bri (State light))
    then exists err,
        SetState l1 (Blink_original (On (State light)) (Bri (State light))) s1
        = Done (light', err) s'
    else light' = l1 /\ s' = s1.
Proof.
  unfold Blink. unfold bind at 1. intros Run.
  destruct (Blink_oscillate light seconds s) as [[l1 [e|]] s1|];
    try discriminate Run.
  exists l1, s1. split; [reflexivity|].
  destruct (Blink_changed l1 (On (State light)) (Bri (State light))).
  - unfold bind, ret in Run.
    destruct (SetState l1 _ s1) as [[l2 err] s2|]; [|discriminate Run].
    inversion Run; subst. exists err; reflexivity.
  - unfold ret in Run. inversion Run; auto.
Qed.

(** The steps [Blink] makes before it puts the lamp back, for a duration
    from 0 up to [2^62 - 1] seconds and as long as no call fails:
    one opening patch [blinkMax], then the turns of the loop, which apply
    [blinkMax] (power on, brightness 200) and [blinkMin] (power on,
    brightness 50) in turn, [blinkMax] first, each followed by a sleep of
    half a second.  The loop makes [2 * seconds + 1] turns, one more than
    [2 * seconds]. *)
Lemma Blink_oscillation_steps (light l1 : Light BridgeRef) (seconds : Z)
    (s s1 : St) :
  0 <= seconds < 2 ^ 62 ->
  Blink_oscillate light seconds s = Done (l1, None) s1 ->
  exists turns,
    Z.of_nat turns = 2 * seconds + 1 /\
    puts (journal s1)
    = (puts (journal s) ++ blinkMax :: map oscillation (seq 0 turns))%list /\
    sleeps (journal s1) = (sleeps (journal s) ++ repeat 500000000 turns)%list /\
    (forall k, oscillation k = if Nat.even k then blinkMax else blinkMin) /\
    ls_On blinkMax = true /\ ls_Bri blinkMax = 200 /\
    ls_On blinkMin = true /\ ls_Bri blinkMin = 50.
Proof.
  intros Range Run. exists (Blink_turns seconds).
  destruct (Blink_oscillate_journal _ _ _ _ _ Run) as (P & Sl & _).
  split; [rewrite Blink_turns_nonneg by exact Range; lia|].
  split; [exact P|]. split; [exact Sl|]. repeat split.
Qed.

(** C6, amended.  When [Blink] returns no error, either the power flag and
    the brightness seen after the last turn are those the mirror had before
    the call, nothing more is sent and the mirror keeps them; or they are
    not, one patch with the former power flag and [uint8] of the former
    brightness is applied by [SetState], and the mirror is what that
    [SetState] leaves: when it succeeds, the mirror fetched after that
    patch. *)
Theorem Blink_puts_back (light light' : Light BridgeRef) (seconds : Z)
    (s s' : St) :
  Blink light seconds s = Done (light', None) s' ->
  exists l1 s1,
    Blink_oscillate light seconds s = Done (l1, None) s1 /\
    ((On (State l1) = On (State light) /\ Bri (State l1) = Bri (State light) /\
      light' = l1 /\ s' = s1 /\
      On (State light') = On (State light) /\
      Bri (State light') = Bri (State light))
     \/
     ((On (State l1) <> On (State light) \/ Bri (State l1) <> Bri (State light)) /\
      exists err,
        SetState l1 (LightState_On_Bri (On (State light))
                                       (uint8 (Bri (State light)))) s1
        = Done (light', err) s' /\
        (err = None ->
         puts (journal s')
         = (puts (journal s1)
            ++ [LightState_On_Bri (On (State light))
                                  (uint8 (Bri (State light)))])%list /\
         exists bridge sp,
           Bridge light = Some bridge /\
           GetLightByIndex bridge (Index light) sp = Done (light', None) s'))).
Proof.
  intros Run. destruct (Blink_success _ _ _ _ _ Run) as (l1 & s1 & Osc & Rest).
  exists l1, s1. split; [exact Osc|].
  destruct (Blink_oscillate_journal _ _ _ _ _ Osc) as (_ & _ & Ix & B).
  destruct (Blink_changed l1 (On (State light)) (Bri (State light))) eqn:Ch.
  - right. split.
    + destruct (Bool.bool_dec (On (State l1)) (On (State light))) as [Eo|No];
        [|left; exact No].
      destruct (Z.eq_dec (Bri (State l1)) (Bri (State light))) as [Eb|Nb];
        [|right; exact Nb].
      assert (F : Blink_changed l1 (On (State light)) (Bri (State light)) = false)
        by (apply Blink_changed_false; auto).
      congruence.
    + destruct Rest as (err & St1). exists err. split; [exact St1|].
      intros ->. split; [apply (SetState_journal _ _ _ _ _ St1)|].
      destruct (SetState_success _ _ _ _ _ St1) as (b & w & HB & _ & G & _).
      exists b. eexists. split; [congruence|]. rewrite <- Ix. exact G.
  - left. apply Blink_changed_false in Ch. destruct Ch as [Eo Eb].
    destruct Rest as [-> ->]. auto 10.
Qed.
End Facts.

(** * Runs on the simulated bridge *)

(** Solves [run = result] by computing [run]. *)
Ltac evaluate :=
  lazymatch goal with
  | |- ?run = _ => let r := eval vm_compute in run in exact (@eq_refl _ r)
  end.

Section Runs.
Import Fake.

(** [GetAllLights] in the house with lamps 1, 2 and 4: the mirrors of lamps 1
    and 2, and no fetch past index 3. *)
Lemma GetAllLights_home :
  exists s',
    GetAllLights hub (start home)
    = Done ([mirror 1 "Lamp" false 100; mirror 2 "Desk" true 254], None) s' /\
    gets (journal s') = [lamp_uri 1; lamp_uri 2; lamp_uri 3].
Proof. eexists. split; [evaluate | reflexivity]. Qed.

(** [GetLightByName] in the same house: "Desk" is found, "desk" is not. *)
Lemma GetLightByName_home :
  (exists s', GetLightByName hub "Desk" (start home)
              = Done (mirror 2 "Desk" true 254, None) s') /\
  (exists s', GetLightByName hub "desk" (start home)
              = Done (Light_zero, Some (errors_New "Light not found.")) s').
Proof. split; eexists; evaluate. Qed.

(** C1, as stated, fails: another client switches the lamp off between the
    [Put] and the fetch; [SetState] succeeds with a patch that has the power
    on, and the mirror has the power off. *)
Lemma SetState_power_not_forced :
  exists light' s',
    SetState lamp1 switch_on (start contended) = Done (light', None) s' /\
    ls_On switch_on = true /\
    On (State light') = false.
Proof. do 2 eexists. split; [evaluate | split; reflexivity]. Qed.

(** [SetState_replaces] at work: lamp 1 of the house is switched on. *)
Lemma SetState_replaces_witness :
  exists light' s',
    SetState lamp1 switch_on (start home) = Done (light', None) s' /\
    exists bridge w body w',
      Bridge lamp1 = Some bridge /\
      bridge_Put bridge (state_uri bridge (Index lamp1)) switch_on
                 (world (start home)) = (None, w) /\
      bridge_Get bridge (light_uri bridge (Index lamp1)) w = ((body, None), w') /\
      light' = set_Bridge (set_Index (fst (json_Unmarshal body Light_zero))
                                     (Index lamp1)) (Bridge lamp1) /\
      Index light' = Index lamp1 /\
      Bridge light' = Bridge lamp1 /\
      On (State light') = On (State (fst (json_Unmarshal body Light_zero))).
Proof.
  do 2 eexists. split; [evaluate|].
  eapply (SetState_replaces (E := env) lamp1 _ switch_on (start home)).
  evaluate.
Defined.

(** [SetState_put_error] at work: the house without network. *)
Lemma SetState_put_error_witness :
  Bridge lamp1 = Some hub /\
  bridge_Put hub (state_uri hub (Index lamp1)) switch_on (world (start offline))
  = (Some "connection refused", offline) /\
  exists s',
    SetState lamp1 switch_on (start offline)
    = Done (lamp1, Some (BridgeError "connection refused")) s' /\
    world s' = offline /\ gets (journal s') = gets (journal (start offline)).
Proof.
  split; [reflexivity|]. split; [reflexivity|].
  apply (SetState_put_error (E := env) lamp1 switch_on (start offline) hub
                            "connection refused" offline); reflexivity.
Defined.

(** [SetState_fetch_error] at work: a mirror whose lamp is no longer in the
    house; the bridge takes the write and answers the fetch with the
    marker. *)
Lemma SetState_fetch_error_witness :
  exists w s',
    Bridge gone = Some hub /\
    bridge_Put hub (state_uri hub (Index gone)) switch_on (world (start home))
    = (None, w) /\
    GetLightByIndex hub (Index gone)
      {| world := w;
         journal := journal (start home)
                    ++ [CallPut hub (state_uri hub (Index gone)) switch_on] |}
    = Done (Light_zero, Some (errors_New "Index Error")) s' /\
    SetState gone switch_on (start home)
    = Done (Light_zero, Some (errors_New "Index Error")) s' /\
    State (@Light_zero BridgeRef) = State_zero /\
    Name (@Light_zero BridgeRef) = "" /\
    Index (@Light_zero BridgeRef) = 0 /\
    Bridge (@Light_zero BridgeRef) = None.
Proof.
  do 2 eexists. split; [reflexivity|]. split; [evaluate|]. split; [evaluate|].
  eapply (SetState_fetch_error (E := env) gone Light_zero switch_on (start home) _ hub);
    [reflexivity | evaluate | evaluate].
Defined.

(** C10, as stated, fails: the [Get] succeeds, the marker is absent and the
    decoder fails on the brightness; [GetLightByIndex] returns no error, and
    the mirror has the power flag and the name the decoder had stored. *)
Lemma GetLightByIndex_partly_decoded :
  exists w decoded e light s',
    bridge_Get hub (light_uri hub 1) (world (start quirky))
    = ((odd_body, None), w) /\
    strings_Contains odd_body "not available" = false /\
    json_Unmarshal odd_body Light_zero = (decoded, Some e) /\
    GetLightByIndex hub 1 (start quirky) = Done (light, None) s' /\
    On (State light) = true /\
    Name light = "Desk".
Proof.
  do 5 eexists. split; [evaluate|]. split; [evaluate|]. split; [evaluate|].
  split; [evaluate|]. split; reflexivity.
Qed.

(** [GetLightByIndex_decode_error] at work: a body that is not JSON. *)
Lemma GetLightByIndex_decode_error_witness :
  exists w e,
    bridge_Get hub (light_uri hub 1) (world (start garbled))
    = (("<html>busy</html>", None), w) /\
    strings_Contains "<html>busy</html>" "not available" = false /\
    json_Unmarshal "<html>busy</html>" Light_zero = (Light_zero, Some e) /\
    GetLightByIndex hub 1 (start garbled)
    = Done (set_Bridge (set_Index Light_zero 1) (Some hub), None)
           {| world := w;
              journal := journal (start garbled)
                         ++ [CallGet hub (light_uri hub 1);
                             CallTrace (JsonError e)] |} /\
    (@Light_zero BridgeRef = Light_zero ->
     set_Bridge (set_Index Light_zero 1) (Some hub)
     = mkLight BridgeRef State_zero "" "" "" "" "" "" 1 (Some hub)).
Proof.
  do 2 eexists. split; [evaluate|]. split; [evaluate|]. split; [evaluate|].
  eapply (GetLightByIndex_decode_error (E := env) hub 1 (start garbled));
    [evaluate | evaluate | evaluate].
Defined.

(** [Blink] for one second on lamp 1 of the house: after the opening
    [blinkMax], the loop makes three turns, [blinkMax], [blinkMin],
    [blinkMax], each with its sleep of half a second, so that the brightness
    switches twice; the last patch puts the lamp back.  [Blink] for no second
    makes one turn, which repeats the opening patch. *)
Lemma Blink_one_second :
  (exists light' s',
      Blink lamp1 1 (start home) = Done (light', None) s' /\
      puts (journal s')
      = [blinkMax; blinkMax; blinkMin; blinkMax; LightState_On_Bri false 100] /\
      sleeps (journal s') = [500000000; 500000000; 500000000]) /\
  (exists light' s',
      Blink lamp1 0 (start home) = Done (light', None) s' /\
      puts (journal s') = [blinkMax; blinkMax; LightState_On_Bri false 100] /\
      sleeps (journal s') = [500000000]).
Proof.
  split; do 2 eexists; (split; [evaluate | split; reflexivity]).
Qed.

(** C6, as stated, fails: another client sets lamp 1 on at brightness 254
    between the last [Put] of [Blink] and the fetch that follows; [Blink]
    returns no error, and the mirror, off at brightness 100 before the call,
    is on at brightness 254. *)
Lemma Blink_not_put_back :
  exists light' s',
    Blink lamp1 0 (start meddled) = Done (light', None) s' /\
    On (State lamp1) = false /\ Bri (State lamp1) = 100 /\
    On (State light') = true /\ Bri (State light') = 254.
Proof. do 2 eexists. split; [evaluate | repeat split]. Qed.

(** The error of the last [SetState] of [Blink] is dropped.  When the network
    is lost before the last [Put], [Blink] returns no error and the mirror
    stays on at brightness 200; when it is lost between the last [Put] and
    the fetch, [Blink] returns no error and the mirror is the zero [Light],
    without bridge. *)
Lemma Blink_drops_last_error :
  (exists light' s',
      Blink lamp1 0 (start (failing_after 4)) = Done (light', None) s' /\
      On (State light') = true /\ Bri (State light') = 200) /\
  (exists s',
      Blink lamp1 0 (start (failing_after 5)) = Done (Light_zero, None) s').
Proof.
  split; [do 2 eexists; split; [evaluate | split; reflexivity]
         | eexists; evaluate].
Qed.

(** A patch leaves a zero brightness out: a mirror that is off at brightness
    0 before [Blink] is off at brightness 200 after it, on a bridge that does
    all it is asked and with no other client. *)
Lemma Blink_zero_brightness :
  exists light' s',
    Blink (mirror 1 "Lamp" false 0) 0 (start dim) = Done (light', None) s' /\
    On (State light') = false /\ Bri (State light') = 200.
Proof. do 2 eexists. split; [evaluate | split; reflexivity]. Qed.

(** On a bridge that does all it is asked, with no other client and a
    brightness within 1 to 254, [Blink] leaves the power flag and the
    brightness as they were. *)
Lemma Blink_home_put_back :
  exists light' s',
    Blink lamp1 1 (start home) = Done (light', None) s' /\
    On (State light') = On (State lamp1) /\
    Bri (State light') = Bri (State lamp1).
Proof. do 2 eexists. split; [evaluate | split; reflexivity]. Qed.

(** [Blink_puts_back] at work: one second of blinking on lamp 1 of the
    house. *)
Lemma Blink_puts_back_witness :
  exists light' s',
    Blink lamp1 1 (start home) = Done (light', None) s' /\
    exists l1 s1,
      Blink_oscillate lamp1 1 (start home) = Done (l1, None) s1 /\
      ((On (State l1) = On (State lamp1) /\ Bri (State l1) = Bri (State lamp1) /\
        light' = l1 /\ s' = s1 /\
        On (State light') = On (State lamp1) /\
        Bri (State light') = Bri (State lamp1))
       \/
       ((On (State l1) <> On (State lamp1) \/ Bri (State l1) <> Bri (State lamp1)) /\
        exists err,
          SetState l1 (LightState_On_Bri (On (State lamp1))
                                         (uint8 (Bri (State lamp1)))) s1
          = Done (light', err) s' /\
          (err = None ->
           puts (journal s')
           = (puts (journal s1)
              ++ [LightState_On_Bri (On (State lamp1))
                                    (uint8 (Bri (State lamp1)))])%list /\
           exists bridge sp,
             Bridge lamp1 = Some bridge /\
             GetLightByIndex bridge (Index lamp1) sp = Done (light', None) s'))).
Proof.
  do 2 eexists. split; [evaluate|].
  eapply (Blink_puts_back (E := env) lamp1 _ 1 (start home)). evaluate.
Defined.
End Runs.

(** * More of [light.go] *)

Section Calls.
Context {E : Env}.

(** ** The calls of one fetch and of one write-then-read *)

(** The journal of a fetch: its [Get], then the log line of a decoding that
    failed, if any. *)
Lemma GetLightByIndex_trace (bridge : BridgeRef) (index : Z) (s s' : St)
    (light : Light BridgeRef) (err : option error) :
  GetLightByIndex bridge index s = Done (light, err) s' ->
  journal s' = (journal s ++ [CallGet bridge (light_uri bridge index)])%list \/
  (err = None /\
   exists e, journal s'
             = (journal s ++ [CallGet bridge (light_uri bridge index);
                              CallTrace (JsonError e)])%list).
Proof.
  destruct (GetLightByIndex_cases bridge index s) as (body & terr & w & _ & H).
  simpl in H. rewrite H. destruct terr as [e|].
  { intros Eq; inversion Eq; subst; left; reflexivity. }
  destruct (strings_Contains body "not available").
  { intros Eq; inversion Eq; subst; left; reflexivity. }
  destruct (snd (json_Unmarshal body Light_zero)) as [e|];
    intros Eq; inversion Eq; subst; simpl.
  - right. split; [reflexivity|]. exists e. rewrite <- app_assoc. reflexivity.
  - left; reflexivity.
Qed.

(** [SetState] comes back whenever the mirror has a bridge. *)
Lemma SetState_returns (light : Light BridgeRef) (newState : LightState)
    (s : St) (bridge : BridgeRef) :
  Bridge light = Some bridge ->
  exists light' err s', SetState light newState s = Done (light', err) s'.
Proof.
  intros HB.
  destruct (bridge_Put bridge (state_uri bridge (Index light)) newState (world s))
    as [[e|] w] eqn:HP.
  - rewrite (SetState_put_failed _ _ _ _ _ _ HB HP). eauto.
  - rewrite (SetState_put_ok _ _ _ _ _ HB HP). apply GetLightByIndex_returns.
Qed.

(** [SetState], taken apart whatever it returns: the [Put] failed and the
    mirror is as before, or the [Put] succeeded and the mirror and the error
    are those of the fetch. *)
Lemma SetState_done (light light' : Light BridgeRef) (newState : LightState)
    (err : option error) (s s' : St) :
  SetState light newState s = Done (light', err) s' ->
  exists bridge,
    Bridge light = Some bridge /\
    let put := CallPut bridge (state_uri bridge (Index light)) newState in
    ((exists e, light' = light /\ err = Some (BridgeError e) /\
                journal s' = (journal s ++ [put])%list)
     \/
     (exists w,
         GetLightByIndex bridge (Index light)
           {| world := w; journal := journal s ++ [put] |}
         = Done (light', err) s')).
Proof.
  intros H. destruct (Bridge light) as [bridge|] eqn:HB.
  2:{ rewrite SetState_nil in H by assumption. discriminate. }
  exists bridge. split; [reflexivity|].
  destruct (bridge_Put bridge (state_uri bridge (Index light)) newState (world s))
    as [[e|] w] eqn:HP.
  - rewrite (SetState_put_failed _ _ _ _ _ _ HB HP) in H. inversion H; subst.
    left. exists e. auto.
  - rewrite (SetState_put_ok _ _ _ _ _ HB HP) in H. right. exists w. exact H.
Qed.

(** What any [SetState] that comes back adds to the journal: one [Put], no
    sleep. *)
Lemma SetState_puts (light light' : Light BridgeRef) (newState : LightState)
    (err : option error) (s s' : St) :
  SetState light newState s = Done (light', err) s' ->
  puts (journal s') = (puts (journal s) ++ [newState])%list /\
  sleeps (journal s') = sleeps (journal s).
Proof.
  intros H. destruct (SetState_done _ _ _ _ _ _ H) as (b & _ & [C|C]).
  - destruct C as (e & _ & _ & ->). rewrite puts_app, sleeps_app. simpl.
    rewrite app_nil_r. auto.
  - destruct C as (w & G).
    destruct (GetLightByIndex_journal _ _ _ _ _ G) as (_ & P & S).
    simpl in P, S. rewrite puts_app in P. rewrite sleeps_app in S.
    simpl in P, S. rewrite app_nil_r in S. auto.
Qed.

(** The mirror a [SetState] leaves: with the bridge and the index it had when
    no error is returned; as it was, or zero, when one is. *)
Lemma SetState_mirror (light light' : Light BridgeRef) (newState : LightState)
    (err : option error) (s s' : St) :
  SetState light newState s = Done (light', err) s' ->
  match err with
  | None => Bridge light' = Bridge light /\ Index light' = Index light
  | Some _ => light' = light \/ light' = Light_zero
  end.
Proof.
  intros H. destruct err as [e|].
  - destruct (SetState_done _ _ _ _ _ _ H) as (b & _ & [C|C]).
    + destruct C as (e' & -> & _). left; reflexivity.
    + destruct C as (w & G). right.
      apply (GetLightByIndex_failure _ _ _ _ _ _ G).
  - destruct (SetState_success _ _ _ _ _ H) as (_ & _ & _ & _ & _ & Ix & B).
    auto.
Qed.

(** X1.  [SetState] panics exactly when the mirror has no bridge.  Otherwise
    it first makes one [Put], with the patch it was given, on the state path
    of the mirror's index.  When that [Put] failed it makes no other call (no
    second [Put], no [Get]), returns the error of the [Put] and the mirror as
    it was.  When that [Put] succeeded it makes one [Get], on the path of the
    same index, and nothing more but the log line of a decoding that failed.
    It never sleeps. *)
Theorem SetState_calls (light : Light BridgeRef) (newState : LightState)
    (s : St) :
  match SetState light newState s with
  | Panic => Bridge light = None
  | Done (light', err) s' =>
    exists bridge,
      Bridge light = Some bridge /\
      let put := CallPut bridge (state_uri bridge (Index light)) newState in
      let get := CallGet bridge (light_uri bridge (Index light)) in
      sleeps (journal s') = sleeps (journal s) /\
      match bridge_Put bridge (state_uri bridge (Index light)) newState (world s)
      with
      | (Some e, w) =>
        journal s' = (journal s ++ [put])%list /\
        err = Some (BridgeError e) /\ light' = light /\ world s' = w
      | (None, w) =>
        journal s' = (journal s ++ [put; get])%list
        \/ err = None /\
           exists e, journal s'
                     = (journal s ++ [put; get; CallTrace (JsonError e)])%list
      end
  end.
Proof.
  destruct (SetState light newState s) as [[light' err] s'|] eqn:H.
  - destruct (Bridge light) as [b|] eqn:HB.
    2:{ rewrite SetState_nil in H by assumption. discriminate. }
    exists b. split; [reflexivity|].
    split; [apply (SetState_puts _ _ _ _ _ _ H)|].
    destruct (bridge_Put b (state_uri b (Index light)) newState (world s))
      as [[e|] w] eqn:HP.
    + rewrite (SetState_put_failed _ _ _ _ _ _ HB HP) in H.
      inversion H; subst. repeat split.
    + rewrite (SetState_put_ok _ _ _ _ _ HB HP) in H.
      destruct (GetLightByIndex_trace _ _ _ _ _ _ H) as [J|(-> & e & J)];
        simpl in J; rewrite <- app_assoc in J; simpl in J.
      * left; exact J.
      * right. split; [reflexivity|]. exists e; exact J.
  - destruct (Bridge light) as [b|] eqn:HB; [|reflexivity].
    destruct (SetState_returns light newState s b HB) as (l & e & s1 & R).
    congruence.
Qed.

(** X2.  A [SetState] that returns an error leaves one of two mirrors,
    according to the [Put].  When the [Put] failed, the error is that of the
    [Put], no [Get] was made and the mirror is as before.  When the [Put]
    succeeded, the [Get] on the path of the mirror's index was made and
    failed, the mirror is the zero [Light], and every later [SetState] on it
    panics. *)
Theorem SetState_error_then_panic (light light' : Light BridgeRef)
    (newState : LightState) (e : error) (s s' : St) :
  SetState light newState s = Done (light', Some e) s' ->
  exists bridge,
    Bridge light = Some bridge /\
    match bridge_Put bridge (state_uri bridge (Index light)) newState (world s)
    with
    | (Some pe, _) =>
      e = BridgeError pe /\ light' = light /\
      gets (journal s') = gets (journal s)
    | (None, w) =>
      GetLightByIndex bridge (Index light)
        {| world := w;
           journal := journal s
                      ++ [CallPut bridge (state_uri bridge (Index light))
                                  newState] |}
      = Done (light', Some e) s' /\
      gets (journal s')
      = (gets (journal s) ++ [light_uri bridge (Index light)])%list /\
      light' = Light_zero /\
      forall newState2 s2, SetState light' newState2 s2 = Panic
    end.
Proof.
  intros H. destruct (Bridge light) as [b|] eqn:HB.
  2:{ rewrite SetState_nil in H by assumption. discriminate. }
  exists b. split; [reflexivity|].
  destruct (bridge_Put b (state_uri b (Index light)) newState (world s))
    as [[pe|] w] eqn:HP.
  - rewrite (SetState_put_failed _ _ _ _ _ _ HB HP) in H.
    inversion H; subst. simpl. rewrite gets_app. simpl.
    rewrite app_nil_r. auto.
  - rewrite (SetState_put_ok _ _ _ _ _ HB HP) in H.
    destruct (GetLightByIndex_journal _ _ _ _ _ H) as (Gs & _).
    simpl in Gs. rewrite gets_app in Gs. simpl in Gs. rewrite app_nil_r in Gs.
    assert (Z0 := GetLightByIndex_failure _ _ _ _ _ _ H).
    split; [exact H|]. split; [exact Gs|]. split; [exact Z0|].
    subst light'. intros p2 s2. apply SetState_nil. reflexivity.
Qed.
End Calls.

Section Discovery.
Context {E : Env}.

(** ** More on the scan and the lookup by name *)


(** The fetches of a scan, counted: as many as mirrors when index 100 was
    reached, one more otherwise, the last one being the fetch that failed. *)
Lemma Scan_count (bridge : BridgeRef) (index : Z) (s s' : St)
    (lights : list (Light BridgeRef)) :
  Scan bridge index s lights s' ->
  let k := List.length lights in
  (index + Z.of_nat k = 101 /\
   gets (journal s')
   = (gets (journal s) ++ map (light_uri bridge) (indices index k))%list)
  \/
  (index + Z.of_nat k < 101 /\
   gets (journal s')
   = (gets (journal s) ++ map (light_uri bridge) (indices index (S k)))%list /\
   exists sk junk e,
     GetLightByIndex bridge (index + Z.of_nat k) sk = Done (junk, Some e) s').
Proof.
  induction 1 as [s | index s junk e s' Hi G
                 | index s light sa lights s' Hi G Sc IH]; simpl.
  - left. rewrite app_nil_r. split; [lia | reflexivity].
  - right. destruct (GetLightByIndex_journal _ _ _ _ _ G) as (Gs & _).
    split; [lia|]. split; [exact Gs|].
    exists s, junk, e. rewrite Z.add_0_r. exact G.
  - destruct (GetLightByIndex_journal _ _ _ _ _ G) as (Gs & _).
    simpl in IH. destruct IH as [(Hk & J)|(Hk & J & sk & junk & e & F)].
    + left. split; [lia|]. rewrite J, Gs, <- app_assoc. reflexivity.
    + right. split; [lia|]. split.
      * rewrite J, Gs, <- app_assoc. reflexivity.
      * exists sk, junk, e.
        replace (index + Z.pos (Pos.of_succ_nat (List.length lights)))
          with (index + 1 + Z.of_nat (List.length lights)) by lia.
        exact F.
Qed.

(** The mirrors of a scan have the bridge of the scan and an index from the
    first one up to 100. *)
Lemma Scan_In (bridge : BridgeRef) (index : Z) (s s' : St)
    (lights : list (Light BridgeRef)) :
  Scan bridge index s lights s' ->
  forall light, In light lights ->
    Bridge light = Some bridge /\ index <= Index light <= 100.
Proof.
  intros Sc light Hin.
  destruct (In_nth_error _ _ Hin) as (k & Hk).
  destruct (Scan_indices _ _ _ _ _ Sc k light Hk) as [Ix B].
  split; [exact B|].
  assert (Hlen : (k < List.length lights)%nat)
    by (apply nth_error_Some; congruence).
  destruct (Scan_gets _ _ _ _ _ Sc) as (n & _ & Len & Bound). lia.
Qed.





(** X4.  [GetAllLights] returning [k] mirrors has fetched the indices 1 to
    [k + 1] when [k] is below 100, the fetch of [k + 1] being the one that
    failed, and the indices 1 to 100 when [k] is 100: index 101 is never
    fetched. *)
Theorem GetAllLights_fetch_count (bridge : BridgeRef) (s : St) :
  exists lights s',
    GetAllLights bridge s = Done (lights, None) s' /\
    let k := List.length lights in
    (k = 100%nat /\
     gets (journal s')
     = (gets (journal s) ++ map (light_uri bridge) (indices 1 100))%list)
    \/
    ((k < 100)%nat /\
     gets (journal s')
     = (gets (journal s) ++ map (light_uri bridge) (indices 1 (S k)))%list /\
     exists sk junk e,
       GetLightByIndex bridge (1 + Z.of_nat k) sk = Done (junk, Some e) s').
Proof.
  destruct (GetAllLights_Scan bridge s) as (lights & s' & Run & Sc).
  exists lights, s'. split; [exact Run|].
  assert (C := Scan_count _ _ _ _ _ Sc). cbv zeta in C |- *.
  destruct C as [(Hk & J)|(Hk & J & F)].
  - left. assert (Hl : List.length lights = 100%nat) by lia.
    split; [exact Hl|]. rewrite Hl in J. exact J.
  - right. split; [lia|]. split; [exact J | exact F].
Qed.

(** X5.  Every mirror [GetAllLights] returns has the bridge that was scanned,
    an index from 1 to 100, and can be written to: [SetState] on it does not
    panic. *)
Theorem GetAllLights_mirrors_usable (bridge : BridgeRef) (s : St) :
  exists lights s',
    GetAllLights bridge s = Done (lights, None) s' /\
    forall light, In light lights ->
      Bridge light = Some bridge /\ 1 <= Index light <= 100 /\
      forall newState s2, SetState light newState s2 <> Panic.
Proof.
  destruct (GetAllLights_Scan bridge s) as (lights & s' & Run & Sc).
  exists lights, s'. split; [exact Run|]. intros light Hin.
  destruct (Scan_In _ _ _ _ _ Sc light Hin) as [B Ix].
  split; [exact B|]. split; [exact Ix|]. intros p s2.
  destruct (SetState_returns light p s2 bridge B) as (l & e & s3 & R).
  rewrite R. discriminate.
Qed.

(** X6.  [GetLightByName] returns either no error and a mirror of that name
    with the bridge that was scanned and an index from 1 to 100, or its error
    and the zero [Light], on which every [SetState] panics. *)
Theorem GetLightByName_result (bridge : BridgeRef) (name : string) (s : St) :
  exists light err s',
    GetLightByName bridge name s = Done (light, err) s' /\
    ((err = None /\ Name light = name /\ Bridge light = Some bridge /\
      1 <= Index light <= 100)
     \/
     (err = Some (errors_New "Light not found.") /\ light = Light_zero /\
      forall newState s2, SetState light newState s2 = Panic)).
Proof.
  destruct (GetAllLights_Scan bridge s) as (lights & s' & Run & Sc).
  destruct (GetLightByName_range_FirstNamed lights name) as (found & F & Eq).
  assert (Run2 : GetLightByName bridge name s
                 = Done (GetLightByName_range lights name) s').
  { unfold GetLightByName, bind. rewrite Run. reflexivity. }
  rewrite Eq in Run2. destruct found as [l|].
  - exists l, None, s'. split; [exact Run2|]. left.
    destruct (FirstNamed_Some _ _ _ F l eq_refl) as (b & a & -> & Hn & _).
    destruct (Scan_In _ _ _ _ _ Sc l) as [B Ix].
    { apply in_or_app. right. left. reflexivity. }
    auto.
  - exists Light_zero, (Some (errors_New "Light not found.")), s'.
    split; [exact Run2|]. right. split; [reflexivity|]. split; [reflexivity|].
    intros p s2. apply SetState_nil. reflexivity.
Qed.

(** X7.  When several lamps of the scan have the wanted name,
    [GetLightByName] returns the one with the lowest index. *)
Theorem GetLightByName_lowest_index (bridge : BridgeRef) (name : string)
    (s : St) :
  exists lights s' light err,
    GetAllLights bridge s = Done (lights, None) s' /\
    GetLightByName bridge name s = Done (light, err) s' /\
    (err = None ->
     forall other, In other lights -> Name other = name ->
                   Index light <= Index other).
Proof.
  destruct (GetAllLights_Scan bridge s) as (lights & s' & Run & Sc).
  destruct (GetLightByName_range_FirstNamed lights name) as (found & F & Eq).
  assert (Run2 : GetLightByName bridge name s
                 = Done (GetLightByName_range lights name) s').
  { unfold GetLightByName, bind. rewrite Run. reflexivity. }
  rewrite Eq in Run2. destruct found as [l|].
  - exists lights, s', l, None. split; [exact Run|]. split; [exact Run2|].
    intros _ other Hin Hname.
    destruct (FirstNamed_Some _ _ _ F l eq_refl) as (b & a & Hl & Hn & Hb).
    destruct (In_nth_error _ _ Hin) as (k & Hk).
    destruct (Scan_indices _ _ _ _ _ Sc k other Hk) as [Ik _].
    assert (Hl' : nth_error lights (List.length b) = Some l).
    { rewrite Hl, nth_error_app2 by lia. rewrite Nat.sub_diag. reflexivity. }
    destruct (Scan_indices _ _ _ _ _ Sc _ l Hl') as [Il _].
    destruct (Nat.lt_ge_cases k (List.length b)) as [Lt|Ge]; [|lia].
    exfalso. rewrite Hl, nth_error_app1 in Hk by exact Lt.
    apply nth_error_In in Hk. apply (Hb other Hk Hname).
  - exists lights, s', Light_zero, (Some (errors_New "Light not found.")).
    split; [exact Run|]. split; [exact Run2|]. discriminate.
Qed.

(** X21.  A [GetLightByIndex] that returns an error returns the zero [Light]
    with it, whatever the body held: its index is 0, not the index asked
    for, it has no bridge, and every [SetState] on it panics. *)
Theorem GetLightByIndex_error_mirror (bridge : BridgeRef) (index : Z)
    (light : Light BridgeRef) (e : error) (s s' : St) :
  GetLightByIndex bridge index s = Done (light, Some e) s' ->
  light = Light_zero /\ Index light = 0 /\ Bridge light = None /\
  forall newState s2, SetState light newState s2 = Panic.
Proof.
  intros G. apply GetLightByIndex_failure in G. subst light.
  do 3 (split; [reflexivity|]). intros p s2. apply SetState_nil. reflexivity.
Qed.
End Discovery.

Section Mutators.
Context {E : Env}.

(** ** The methods built on [SetState] *)

Lemma SetState_one_patch (light : Light BridgeRef) (newState : LightState)
    (s : St) :
  one_patch (SetState light newState) light newState s.
Proof.
  unfold one_patch.
  destruct (SetState light newState s) as [[l err] s'|] eqn:H.
  - destruct (SetState_done _ _ _ _ _ _ H) as (b & HB & _).
    split; [congruence|]. apply (SetState_puts _ _ _ _ _ _ H).
  - destruct (Bridge light) as [b|] eqn:HB; [|reflexivity].
    destruct (SetState_returns light newState s b HB) as (l & e & s1 & R).
    congruence.
Qed.

(** [SetColor] is [SetState] with its patch. *)
Lemma SetColor_SetState (light : Light BridgeRef)
    (color : option (float32 * float32)) (s : St) :
  SetColor light color s = SetState light (LightState_On_XY true color) s.
Proof.
  unfold SetColor, bind.
  destruct (SetState light (LightState_On_XY true color) s) as [[l [e|]] s'|];
    reflexivity.
Qed.

(** [Toggle] is [SetState] with the opposite of the power flag the mirror
    holds. *)
Lemma Toggle_SetState (light : Light BridgeRef) (s : St) :
  Toggle light s = SetState light (LightState_On (negb (On (State light)))) s.
Proof.
  unfold Toggle, Off, Light_On. destruct (On (State light)); reflexivity.
Qed.

(** X8.  [Off], [On], [ColorLoop] and [SetColor] each send one patch and
    nothing else: [Off] the power flag off; [On] the power flag on;
    [ColorLoop] the power flag on, whether it starts or stops the loop, with
    the effect "colorloop" or "none"; [SetColor] the power flag on with the
    given coordinates, none for a nil pointer.  [SetColor] returns what
    [SetState] returns. *)
Theorem mutators_one_patch (light : Light BridgeRef) (activate : bool)
    (color : option (float32 * float32)) (s : St) :
  one_patch (Off light) light (LightState_On false) s /\
  one_patch (Light_On light) light (LightState_On true) s /\
  (exists patch,
      one_patch (ColorLoop light activate) light patch s /\
      ls_On patch = true /\
      ls_Effect patch = (if activate then "colorloop" else "none") /\
      ls_Effect patch <> "" /\ ls_Bri patch = 0 /\ ls_XY patch = None) /\
  (exists patch,
      one_patch (SetColor light color) light patch s /\
      ls_On patch = true /\ ls_XY patch = color /\ ls_Effect patch = "") /\
  SetColor light color s = SetState light (LightState_On_XY true color) s.
Proof.
  split; [apply SetState_one_patch|]. split; [apply SetState_one_patch|].
  split; [|split].
  - eexists. split; [apply SetState_one_patch|]. simpl.
    repeat split; destruct activate; discriminate.
  - exists (LightState_On_XY true color). split; [|repeat split].
    unfold one_patch. rewrite SetColor_SetState. apply SetState_one_patch.
  - apply SetColor_SetState.
Qed.

(** Whenever the mirror has a bridge, [SetState] comes back and its first
    call is its [Put]; the calls after it are the [Get] of the fetch, when
    the [Put] succeeded, and none when it failed. *)
Lemma SetState_put_first (light : Light BridgeRef) (newState : LightState)
    (s : St) (bridge : BridgeRef) :
  Bridge light = Some bridge ->
  exists light' err s' tail,
    SetState light newState s = Done (light', err) s' /\
    journal s'
    = (journal s
       ++ CallPut bridge (state_uri bridge (Index light)) newState :: tail)%list /\
    puts tail = [] /\
    match bridge_Put bridge (state_uri bridge (Index light)) newState (world s)
    with
    | (Some e, _) =>
      tail = [] /\ light' = light /\ err = Some (BridgeError e)
    | (None, _) => gets tail = [light_uri bridge (Index light)]
    end.
Proof.
  intros HB.
  destruct (bridge_Put bridge (state_uri bridge (Index light)) newState (world s))
    as [[e|] w] eqn:HP.
  - rewrite (SetState_put_failed _ _ _ _ _ _ HB HP).
    exists light, (Some (BridgeError e)). eexists. exists [].
    split; [reflexivity|]. simpl. repeat split.
  - rewrite (SetState_put_ok _ _ _ _ _ HB HP).
    match goal with |- context [GetLightByIndex ?b ?i ?st] =>
      destruct (GetLightByIndex_returns b i st) as (l & err & s' & G) end.
    destruct (GetLightByIndex_trace _ _ _ _ _ _ G) as [J|(_ & e & J)];
      simpl in J; rewrite <- app_assoc in J; simpl in J.
    + exists l, err, s'. eexists [_]. split; [exact G|].
      split; [exact J|]. split; reflexivity.
    + exists l, err, s'. eexists [_; _]. split; [exact G|].
      split; [exact J|]. split; reflexivity.
Qed.

(** X9.  [Toggle] decides from the power flag the mirror holds, before any
    call: it panics when the mirror has no bridge, and otherwise its first
    call is the [Put] of the opposite flag and it makes no other [Put].  When
    that [Put] fails, [Toggle] makes no other call and returns the error of
    the [Put], the mirror is as before, and a second [Toggle], whenever it is
    made, comes back having sent the same patch first.  When that [Put]
    succeeds, [Toggle] makes the [Get] of the mirror's index. *)
Theorem Toggle_cached_flag (light : Light BridgeRef) (s : St) :
  let patch := LightState_On (negb (On (State light))) in
  match Toggle light s with
  | Panic => Bridge light = None
  | Done (light', err) s' =>
    exists bridge tail,
      Bridge light = Some bridge /\
      let put := CallPut bridge (state_uri bridge (Index light)) patch in
      journal s' = (journal s ++ put :: tail)%list /\
      puts tail = [] /\
      match bridge_Put bridge (state_uri bridge (Index light)) patch (world s)
      with
      | (Some e, _) =>
        tail = [] /\ light' = light /\ err = Some (BridgeError e) /\
        forall s2, exists r s3 tail2,
          Toggle light' s2 = Done r s3 /\
          journal s3 = (journal s2 ++ put :: tail2)%list /\
          puts tail2 = []
      | (None, _) => gets tail = [light_uri bridge (Index light)]
      end
  end.
Proof.
  intros patch. rewrite Toggle_SetState. fold patch.
  destruct (Bridge light) as [b|] eqn:HB.
  2:{ rewrite SetState_nil by assumption. reflexivity. }
  destruct (SetState_put_first light patch s b HB)
    as (l & err & s' & tail & Run & J & P & Cases).
  rewrite Run. exists b, tail. split; [reflexivity|].
  cbv zeta. split; [exact J|]. split; [exact P|].
  destruct (bridge_Put b (state_uri b (Index light)) patch (world s))
    as [[e|] w]; [|exact Cases].
  destruct Cases as (T & L & Er). split; [exact T|]. split; [exact L|].
  split; [exact Er|]. subst l. intros s2.
  destruct (SetState_put_first light patch s2 b HB)
    as (l2 & err2 & s3 & tail2 & Run2 & J2 & P2 & _).
  exists (l2, err2), s3, tail2. rewrite Toggle_SetState. fold patch.
  auto.
Qed.

(** X10.  After a [Toggle] that succeeded, the next one decides from the
    power flag the first one fetched, not from the patch it sent: the two
    patches are the opposites of the flags the mirror held before each call,
    and they are the same patch when the bridge reported the lamp as it was
    before. *)
Theorem Toggle_twice (light l1 l2 : Light BridgeRef) (err : option error)
    (s s1 s2 : St) :
  Toggle light s = Done (l1, None) s1 ->
  Toggle l1 s1 = Done (l2, err) s2 ->
  puts (journal s2)
  = (puts (journal s) ++ [LightState_On (negb (On (State light)));
                          LightState_On (negb (On (State l1)))])%list /\
  (On (State l1) = On (State light) ->
   puts (journal s2)
   = (puts (journal s) ++ [LightState_On (negb (On (State light)));
                           LightState_On (negb (On (State light)))])%list).
Proof.
  rewrite !Toggle_SetState. intros T1 T2.
  destruct (SetState_puts _ _ _ _ _ _ T1) as [P1 _].
  destruct (SetState_puts _ _ _ _ _ _ T2) as [P2 _].
  assert (P : puts (journal s2)
              = (puts (journal s) ++ [LightState_On (negb (On (State light)));
                                      LightState_On (negb (On (State l1)))])%list).
  { rewrite P2, P1, <- app_assoc. reflexivity. }
  split; [exact P|]. intros Same. rewrite Same in P. exact P.
Qed.
End Mutators.

Section Blinking.
Context {E : Env}.

(** ** More on [Blink] *)

(** The turns of the loop for every 64-bit duration: [seconds * 2] wraps
    from [2^62] on and below [- 2^62]. *)
Lemma Blink_turns_cases (seconds : Z) :
  - 2 ^ 63 <= seconds < 2 ^ 63 ->
  Z.of_nat (Blink_turns seconds) =
  if Z.ltb seconds (- 2 ^ 62) then 2 * seconds + 2 ^ 64 + 1
  else if Z.ltb seconds 0 then 0
  else if Z.ltb seconds (2 ^ 62) then 2 * seconds + 1
  else 0.
Proof.
  intros R. unfold Blink_turns, int_wrap.
  destruct (Z.ltb_spec seconds (- 2 ^ 62)).
  { replace ((seconds * 2 + 2 ^ 63) mod 2 ^ 64)
      with (seconds * 2 + 2 ^ 63 + 2 ^ 64); [lia|].
    apply Z.mod_unique with (q := -1); lia. }
  destruct (Z.ltb_spec seconds 0).
  { rewrite Z.mod_small by lia. lia. }
  destruct (Z.ltb_spec seconds (2 ^ 62)).
  { rewrite Z.mod_small by lia. lia. }
  replace ((seconds * 2 + 2 ^ 63) mod 2 ^ 64)
    with (seconds * 2 + 2 ^ 63 - 2 ^ 64); [lia|].
  apply Z.mod_unique with (q := 1); lia.
Qed.

(** The loop comes back whenever the mirror has a bridge. *)
Lemma Blink_for_returns (n : nat) (bridge : BridgeRef) :
  forall (i : Z) (light : Light BridgeRef) (s : St),
    Bridge light = Some bridge ->
    exists light' err s', Blink_for n i light s = Done (light', err) s'.
Proof.
  induction n as [|n IH]; intros i light s HB; simpl.
  - unfold ret. eauto.
  - unfold bind at 1.
    assert (R : exists l e s1, Blink_step i light s = Done (l, e) s1).
    { unfold Blink_step. destruct (Z.eqb (Z.rem i 2) 0);
        apply (SetState_returns _ _ _ bridge HB). }
    destruct R as (l & e & s1 & R). rewrite R.
    assert (M := R). unfold Blink_step in M.
    destruct e as [e|]; [unfold ret; eauto|].
    unfold bind, time_Sleep. apply IH.
    destruct (Z.eqb (Z.rem i 2) 0);
      apply SetState_mirror in M; destruct M as [B _]; congruence.
Qed.

Lemma Blink_oscillate_returns (light : Light BridgeRef) (seconds : Z) (s : St)
    (bridge : BridgeRef) :
  Bridge light = Some bridge ->
  exists light' err s', Blink_oscillate light seconds s = Done (light', err) s'.
Proof.
  intros HB. unfold Blink_oscillate, bind.
  destruct (SetState_returns light blinkMax s bridge HB) as (l & e & s1 & R).
  rewrite R. destruct e as [e|]; [unfold ret; eauto|].
  apply Blink_for_returns with (bridge := bridge).
  apply SetState_mirror in R. destruct R as [B _]. congruence.
Qed.

(** [Blink] in terms of its first part. *)
Lemma Blink_cases (light : Light BridgeRef) (seconds : Z) (s : St) :
  Blink light seconds s =
  match Blink_oscillate light seconds s with
  | Panic => Panic
  | Done (l1, Some e) s1 => Done (l1, Some e) s1
  | Done (l1, None) s1 =>
    if Blink_changed l1 (On (State light)) (Bri (State light))
    then match SetState l1 (Blink_original (On (State light))
                                           (Bri (State light))) s1 with
         | Panic => Panic
         | Done (l2, _) s2 => Done (l2, None) s2
         end
    else Done (l1, None) s1
  end.
Proof.
  unfold Blink. unfold bind at 1.
  destruct (Blink_oscillate light seconds s) as [[l1 [e|]] s1|];
    try reflexivity.
  destruct (Blink_changed l1 (On (State light)) (Bri (State light)));
    [|reflexivity].
  unfold bind. destruct (SetState l1 _ s1) as [[l2 e2] s2|]; reflexivity.
Qed.

(** X11.  [Blink] panics exactly when the mirror has no bridge: with a
    bridge it always comes back, whatever fails on the way. *)
Theorem Blink_panics_iff_nil (light : Light BridgeRef) (seconds : Z) (s : St) :
  Blink light seconds s = Panic <-> Bridge light = None.
Proof.
  rewrite Blink_cases. split.
  - intros H. destruct (Bridge light) as [b|] eqn:HB; [|reflexivity].
    exfalso.
    destruct (Blink_oscillate_returns light seconds s b HB)
      as (l1 & e & s1 & R).
    rewrite R in H. destruct e as [e|]; [discriminate|].
    destruct (Blink_changed l1 (On (State light)) (Bri (State light)));
      [|discriminate].
    destruct (Blink_oscillate_journal _ _ _ _ _ R) as (_ & _ & _ & B).
    destruct (SetState_returns l1 (Blink_original (On (State light))
                                                  (Bri (State light))) s1 b)
      as (l2 & e2 & s2 & R2); [congruence|].
    rewrite R2 in H. discriminate.
  - intros HB. unfold Blink_oscillate, bind.
    rewrite SetState_nil by exact HB. reflexivity.
Qed.

(** A loop of [n] turns comes back without error exactly when its [n] turns
    were made, each without error. *)
Lemma Blink_for_Turned (n : nat) :
  forall (k : nat) (light l : Light BridgeRef) (s s' : St),
    Blink_for n (Z.of_nat k) light s = Done (l, None) s' <->
    Turned k n light s l s'.
Proof.
  induction n as [|n IH]; intros k light l s s'.
  - simpl. unfold ret. split.
    + intros Eq; inversion Eq; subst; constructor.
    + intros T; inversion T; subst; reflexivity.
  - simpl. unfold bind at 1. rewrite Blink_step_oscillation. split.
    + intros Run.
      destruct (SetState light (oscillation k) s) as [[l2 [e2|]] s2|] eqn:St1;
        try discriminate Run.
      unfold bind, time_Sleep, record in Run.
      replace (Z.of_nat k + 1) with (Z.of_nat (S k)) in Run by lia.
      apply IH in Run.
      eapply Turned_more; [exact St1 | reflexivity | exact Run].
    + intros T.
      inversion T as [|k' n' light' s0 l1 s1 s2 l' s'' St1 Sl Rest]; subst.
      rewrite St1. unfold bind. rewrite Sl.
      replace (Z.of_nat k + 1) with (Z.of_nat (S k)) by lia.
      apply IH. exact Rest.
Qed.

(** A loop of [n] turns comes back with an error exactly when, after some
    turns made without error, fewer than [n], the patch of the next turn
    failed: the loop returns what that [SetState] returns. *)
Lemma Blink_for_Turned_error (n : nat) :
  forall (k : nat) (light l : Light BridgeRef) (e : error) (s s' : St),
    Blink_for n (Z.of_nat k) light s = Done (l, Some e) s' <->
    exists m lm sm,
      (m < n)%nat /\ Turned k m light s lm sm /\
      SetState lm (oscillation (k + m)) sm = Done (l, Some e) s'.
Proof.
  induction n as [|n IH]; intros k light l e s s'.
  - simpl. unfold ret. split; [discriminate|].
    intros (m & _ & _ & Hm & _). lia.
  - simpl. unfold bind at 1. rewrite Blink_step_oscillation. split.
    + intros Run.
      destruct (SetState light (oscillation k) s) as [[l2 [e2|]] s2|] eqn:St1;
        try discriminate Run.
      * unfold ret in Run. inversion Run; subst.
        exists O, light, s. split; [lia|]. split; [constructor|].
        rewrite Nat.add_0_r. exact St1.
      * unfold bind, time_Sleep, record in Run.
        replace (Z.of_nat k + 1) with (Z.of_nat (S k)) in Run by lia.
        apply IH in Run. destruct Run as (m & lm & sm & Hm & T & F).
        exists (S m), lm, sm. split; [lia|]. split.
        -- eapply Turned_more; [exact St1 | reflexivity | exact T].
        -- rewrite Nat.add_succ_r. exact F.
    + intros (m & lm & sm & Hm & T & F).
      inversion T as [|k' n' light' s0 l1 s1 s2 l' s'' St1 Sl Rest]; subst.
      * rewrite Nat.add_0_r in F. rewrite F. reflexivity.
      * rewrite St1. unfold bind. rewrite Sl.
        replace (Z.of_nat k + 1) with (Z.of_nat (S k)) by lia.
        apply IH. exists n', lm, sm. split; [lia|]. split; [exact Rest|].
        rewrite Nat.add_succ_r in F. exact F.
Qed.

(** X12.  [Blink] returns an error exactly when its opening patch failed, or
    when, the opening patch and some turns of its loop having been made
    without error, the patch of the next turn failed; it then returns what
    that [SetState] returned, error and mirror.  When the opening patch and
    all the turns were made without error, [Blink] returns no error,
    whatever the last patch, which puts the lamp back, returns. *)
Theorem Blink_error_iff (light l : Light BridgeRef) (seconds : Z) (e : error)
    (s s' : St) :
  (Blink light seconds s = Done (l, Some e) s' <->
   SetState light blinkMax s = Done (l, Some e) s' \/
   exists l0 s0 m lm sm,
     SetState light blinkMax s = Done (l0, None) s0 /\
     (m < Blink_turns seconds)%nat /\
     Turned 0 m l0 s0 lm sm /\
     SetState lm (oscillation m) sm = Done (l, Some e) s') /\
  (forall l0 s0 l1 s1,
      SetState light blinkMax s = Done (l0, None) s0 ->
      Turned 0 (Blink_turns seconds) l0 s0 l1 s1 ->
      exists l2 s2,
        Blink light seconds s = Done (l2, None) s2 /\
        if Blink_changed l1 (On (State light)) (Bri (State light))
        then exists e2,
            SetState l1 (Blink_original (On (State light)) (Bri (State light)))
                     s1
            = Done (l2, e2) s2
        else l2 = l1 /\ s2 = s1).
Proof.
  split.
  - transitivity (Blink_oscillate light seconds s = Done (l, Some e) s').
    { rewrite Blink_cases.
      destruct (Blink_oscillate light seconds s) as [[l1 [e1|]] s1|];
        try tauto.
      split; [|discriminate].
      destruct (Blink_changed l1 (On (State light)) (Bri (State light)));
        [|discriminate].
      destruct (SetState l1 _ s1) as [[l2 e2] s2|]; discriminate. }
    unfold Blink_oscillate, bind.
    destruct (SetState light blinkMax s) as [[l0 [e0|]] s0|] eqn:St0.
    + unfold ret. split.
      * intros Eq; left; exact Eq.
      * intros [Eq|(l0' & s0' & m & lm & sm & Eq & _)];
          [exact Eq | discriminate Eq].
    + change 0 with (Z.of_nat 0). rewrite Blink_for_Turned_error. split.
      * intros (m & lm & sm & Hm & T & F). right.
        exists l0, s0, m, lm, sm. auto.
      * intros [Eq|(l0' & s0' & m & lm & sm & Eq & Hm & T & F)];
          [discriminate Eq|].
        inversion Eq; subst. exists m, lm, sm. auto.
    + split; [discriminate|].
      intros [Eq|(l0' & s0' & m & lm & sm & Eq & _)]; discriminate Eq.
  - intros l0 s0 l1 s1 St0 T.
    assert (Osc : Blink_oscillate light seconds s = Done (l1, None) s1).
    { unfold Blink_oscillate, bind. rewrite St0.
      change 0 with (Z.of_nat 0). apply Blink_for_Turned. exact T. }
    rewrite Blink_cases, Osc.
    destruct (Blink_changed l1 (On (State light)) (Bri (State light)));
      [|eauto].
    destruct (SetState_success _ _ _ _ _ St0) as (b & _ & HB & _).
    destruct (Blink_oscillate_journal _ _ _ _ _ Osc) as (_ & _ & _ & B).
    destruct (SetState_returns l1 (Blink_original (On (State light))
                                                  (Bri (State light))) s1 b)
      as (l2 & e2 & s2 & R2); [congruence|].
    rewrite R2. eauto.
Qed.

(** The patches and sleeps of a loop that stopped on an error: the turns up
    to the one that failed, which is not followed by a sleep. *)
Lemma Blink_for_failed (n : nat) :
  forall (k : nat) (light l : Light BridgeRef) (e : error) (s s' : St),
    Blink_for n (Z.of_nat k) light s = Done (l, Some e) s' ->
    exists m,
      (m < n)%nat /\
      puts (journal s')
      = (puts (journal s) ++ map oscillation (seq k (S m)))%list /\
      sleeps (journal s')
      = (sleeps (journal s) ++ repeat (Z.quot time_Second 2) m)%list.
Proof.
  induction n as [|n IH]; intros k light l e s s' Run.
  - simpl in Run. unfold ret in Run. discriminate.
  - simpl in Run. unfold bind at 1 in Run.
    rewrite Blink_step_oscillation in Run.
    destruct (SetState light (oscillation k) s) as [[l2 [e2|]] s2|] eqn:St1;
      try discriminate Run.
    + unfold ret in Run. inversion Run; subst.
      destruct (SetState_puts _ _ _ _ _ _ St1) as (P1 & Sl1).
      exists O. split; [lia|]. simpl. rewrite app_nil_r. auto.
    + unfold bind, time_Sleep, record in Run.
      replace (Z.of_nat k + 1) with (Z.of_nat (S k)) in Run by lia.
      apply IH in Run. destruct Run as (m & Hm & P & Sl). simpl in P, Sl.
      destruct (SetState_puts _ _ _ _ _ _ St1) as (P1 & Sl1).
      rewrite puts_app in P. rewrite sleeps_app in Sl. simpl in P, Sl.
      rewrite app_nil_r, P1 in P. rewrite Sl1 in Sl.
      rewrite <- !app_assoc in P. rewrite <- !app_assoc in Sl.
      exists (S m). split; [lia|]. split; [exact P | exact Sl].
Qed.

(** X13.  When [Blink] returns an error it has sent only patches of the
    oscillation, all with the power on: the opening [blinkMax] and the turns
    up to the one that failed.  It has not tried to put the lamp back, and
    has slept once less than it has made turns. *)
Theorem Blink_error_leaves_blinking (light l : Light BridgeRef) (seconds : Z)
    (e : error) (s s' : St) :
  Blink light seconds s = Done (l, Some e) s' ->
  exists m,
    (m <= Blink_turns seconds)%nat /\
    puts (journal s')
    = (puts (journal s) ++ blinkMax :: map oscillation (seq 0 m))%list /\
    sleeps (journal s')
    = (sleeps (journal s) ++ repeat 500000000 (Nat.pred m))%list /\
    Forall (fun patch => ls_On patch = true /\
                         (ls_Bri patch = 200 \/ ls_Bri patch = 50))
           (blinkMax :: map oscillation (seq 0 m)).
Proof.
  rewrite Blink_cases.
  destruct (Blink_oscillate light seconds s) as [[l1 [e1|]] s1|] eqn:Osc.
  2:{ destruct (Blink_changed l1 (On (State light)) (Bri (State light)));
        [|discriminate].
      destruct (SetState l1 _ s1) as [[l2 e2] s2|]; discriminate. }
  2:{ discriminate. }
  intros Eq. inversion Eq; subst. clear Eq.
  assert (F : forall m, Forall (fun patch => ls_On patch = true /\
                                  (ls_Bri patch = 200 \/ ls_Bri patch = 50))
                               (blinkMax :: map oscillation (seq 0 m))).
  { intros m. constructor; [split; [reflexivity | left; reflexivity]|].
    apply Forall_forall. intros p Hin. apply in_map_iff in Hin.
    destruct Hin as (k & <- & _). unfold oscillation.
    destruct (Nat.even k); (split; [reflexivity|]);
      [left | right]; reflexivity. }
  unfold Blink_oscillate, bind in Osc.
  destruct (SetState light blinkMax s) as [[l2 [e2|]] s2|] eqn:St1;
    try discriminate Osc.
  - unfold ret in Osc. inversion Osc; subst.
    destruct (SetState_puts _ _ _ _ _ _ St1) as (P1 & Sl1).
    exists O. split; [lia|]. simpl. rewrite app_nil_r.
    split; [exact P1|]. split; [exact Sl1 | apply (F O)].
  - apply (Blink_for_failed _ O) in Osc. destruct Osc as (m & Hm & P & Sl).
    destruct (SetState_puts _ _ _ _ _ _ St1) as (P1 & Sl1).
    rewrite P1, <- app_assoc in P. rewrite Sl1 in Sl.
    exists (S m). split; [lia|]. split; [exact P|]. split; [exact Sl|].
    apply (F (S m)).
Qed.

(** X14.  The turns of the loop of [Blink] for every 64-bit duration, as long
    as no call fails, each followed by a sleep of half a second:
    [2 * seconds + 1] from 0 to [2^62 - 1] seconds; none for a negative
    duration down to [- 2^62]; none from [2^62] seconds on, where
    [seconds * 2] wraps to a negative number; and
    [2 * seconds + 2^64 + 1] below [- 2^62], where it wraps to a positive
    one. *)
Theorem Blink_turns_int64 (light l1 : Light BridgeRef) (seconds : Z)
    (s s1 : St) :
  - 2 ^ 63 <= seconds < 2 ^ 63 ->
  Blink_oscillate light seconds s = Done (l1, None) s1 ->
  exists turns,
    puts (journal s1)
    = (puts (journal s) ++ blinkMax :: map oscillation (seq 0 turns))%list /\
    sleeps (journal s1) = (sleeps (journal s) ++ repeat 500000000 turns)%list /\
    (0 <= seconds < 2 ^ 62 -> Z.of_nat turns = 2 * seconds + 1) /\
    (- 2 ^ 62 <= seconds < 0 -> turns = O) /\
    (2 ^ 62 <= seconds -> turns = O) /\
    (seconds < - 2 ^ 62 -> Z.of_nat turns = 2 * seconds + 2 ^ 64 + 1).
Proof.
  intros R Run. exists (Blink_turns seconds).
  destruct (Blink_oscillate_journal _ _ _ _ _ Run) as (P & Sl & _).
  split; [exact P|]. split; [exact Sl|].
  assert (C := Blink_turns_cases seconds R).
  destruct (Z.ltb_spec seconds (- 2 ^ 62)); [repeat split; lia|].
  destruct (Z.ltb_spec seconds 0); [repeat split; lia|].
  destruct (Z.ltb_spec seconds (2 ^ 62)); repeat split; lia.
Qed.

(** X19.  When [Blink] returns no error the mirror has the index and the
    bridge it had before the call, or else is the zero [Light], without
    bridge: the error of the last patch is dropped even when it was the
    fetch that failed. *)
Theorem Blink_success_mirror (light l : Light BridgeRef) (seconds : Z)
    (s s' : St) :
  Blink light seconds s = Done (l, None) s' ->
  (Index l = Index light /\ Bridge l = Bridge light) \/ l = Light_zero.
Proof.
  rewrite Blink_cases.
  destruct (Blink_oscillate light seconds s) as [[l1 [e1|]] s1|] eqn:Osc;
    try discriminate.
  destruct (Blink_oscillate_journal _ _ _ _ _ Osc) as (_ & _ & Ix & B).
  destruct (Blink_changed l1 (On (State light)) (Bri (State light))).
  - destruct (SetState l1 _ s1) as [[l2 e2] s2|] eqn:St1; [|discriminate].
    intros Eq. inversion Eq; subst. apply SetState_mirror in St1.
    destruct e2 as [e2|].
    + destruct St1 as [->| ->]; [left | right]; auto.
    + left. destruct St1 as [B2 Ix2]. split; congruence.
  - intros Eq. inversion Eq; subst. left. auto.
Qed.
End Blinking.

Section EarlierRevision.
Context {E : Env} {C : Console}.

(** ** The earlier revision *)

Lemma int_wrap_range (z : Z) : - 2 ^ 63 <= int_wrap z < 2 ^ 63.
Proof.
  unfold int_wrap.
  assert (H := Z.mod_pos_bound (z + 2 ^ 63) (2 ^ 64) ltac:(lia)). lia.
Qed.

(** [SetLightState] is the [SetState] of the later revision. *)
Lemma SetLightState_SetState (light : Light BridgeRef) (newState : LightState)
    (s : St) :
  Earlier.SetLightState light newState s = SetState light newState s.
Proof. reflexivity. Qed.

(** The earlier [Toggle] prints a line, then is [SetState] with the opposite
    of the power flag the mirror holds. *)
Lemma Earlier_Toggle_SetState (self : Light BridgeRef) (s : St) :
  exists line,
    Earlier.Toggle self s
    = SetState self (LightState_On (negb (On (State self))))
               {| world := fmt_Println line (world s); journal := journal s |}.
Proof.
  unfold Earlier.Toggle. destruct (On (State self)).
  - exists "toggling off". reflexivity.
  - exists "toggling on". reflexivity.
Qed.

Lemma Earlier_Toggle_returns (self : Light BridgeRef) (s : St)
    (bridge : BridgeRef) :
  Bridge self = Some bridge ->
  exists l err s', Earlier.Toggle self s = Done (l, err) s'.
Proof.
  intros HB. destruct (Earlier_Toggle_SetState self s) as (line & ->).
  apply (SetState_returns _ _ _ bridge HB).
Qed.

(** What an earlier [Toggle] that comes back adds to the journal, and the
    bridge of the mirror when it returns no error. *)
Lemma Earlier_Toggle_puts (self l : Light BridgeRef) (err : option error)
    (s s' : St) :
  Earlier.Toggle self s = Done (l, err) s' ->
  puts (journal s')
  = (puts (journal s) ++ [LightState_On (negb (On (State self)))])%list /\
  sleeps (journal s') = sleeps (journal s) /\
  (err = None -> Bridge l = Bridge self).
Proof.
  destruct (Earlier_Toggle_SetState self s) as (line & ->). intros H.
  destruct (SetState_puts _ _ _ _ _ _ H) as (P & Sl). simpl in P, Sl.
  split; [exact P|]. split; [exact Sl|]. intros ->.
  apply SetState_mirror in H. tauto.
Qed.

(** The loop of the earlier [Blink], given fuel for the turns the condition
    [i <= seconds] allows, below the largest [int]. *)
Lemma Earlier_Blink_loop_run (seconds : Z) (bridge : BridgeRef) (n : nat) :
  forall (fuel : nat) (i : Z) (self : Light BridgeRef) (s : St),
    seconds < 2 ^ 63 - 1 -> (n <= fuel)%nat -> - 2 ^ 63 <= i ->
    Z.of_nat n = Z.max 0 (seconds + 1 - i) ->
    Bridge self = Some bridge ->
    exists l err s',
      Earlier.Blink_loop fuel seconds i self s = Done (Some (l, err)) s' /\
      (err = None ->
       Bridge l = Some bridge /\
       sleeps (journal s') = (sleeps (journal s) ++ repeat time_Second n)%list /\
       List.length (puts (journal s')) = (List.length (puts (journal s)) + n)%nat).
Proof.
  induction n as [|n IH]; intros fuel i self s Hs Hf Hi Hn HB.
  - assert (Hc : Z.leb i seconds = false) by (apply Z.leb_gt; lia).
    exists self, None, s. split.
    + destruct fuel; simpl; rewrite Hc; reflexivity.
    + intros _. simpl. rewrite app_nil_r, Nat.add_0_r. auto.
  - assert (Hc : Z.leb i seconds = true) by (apply Z.leb_le; lia).
    destruct fuel as [|fuel]; [lia|]. simpl. rewrite Hc. unfold bind at 1.
    destruct (Earlier_Toggle_returns self s bridge HB) as (l & e & s1 & T).
    rewrite T. destruct (Earlier_Toggle_puts _ _ _ _ _ T) as (P & Sl & B).
    destruct e as [e|].
    { exists l, (Some e), s1. split; [reflexivity | discriminate]. }
    unfold bind, time_Sleep, record. rewrite int_wrap_small by lia.
    edestruct (IH fuel (i + 1) l) as (l' & err & s' & Run & Ok);
      [exact Hs | lia | lia | lia | rewrite B by reflexivity; exact HB |].
    exists l', err, s'. split; [exact Run|]. intros Hn0.
    destruct (Ok Hn0) as (B' & Sl' & P'). simpl in Sl', P'.
    rewrite sleeps_app in Sl'. rewrite puts_app in P'. simpl in Sl', P'.
    rewrite app_nil_r in P'. rewrite Sl in Sl'. rewrite P in P'.
    rewrite length_app in P'. simpl in P'.
    split; [exact B'|]. split.
    + rewrite Sl', <- app_assoc. reflexivity.
    + lia.
Qed.

(** X15.  The earlier [Blink], for a duration below the largest [int], a
    mirror with a bridge and fuel for [seconds + 1] turns, always comes back
    with a result.  When it returns no error it has made [seconds + 1] turns
    (none for a negative duration), each a [Toggle] followed by a sleep of
    one second, and sent at most one patch more. *)
Theorem Earlier_Blink_turns (fuel : nat) (self : Light BridgeRef)
    (seconds : Z) (s : St) (bridge : BridgeRef) :
  - 2 ^ 63 <= seconds < 2 ^ 63 - 1 ->
  (Z.to_nat (seconds + 1) <= fuel)%nat ->
  Bridge self = Some bridge ->
  exists l err s',
    Earlier.Blink fuel self seconds s = Done (Some (l, err)) s' /\
    (err = None ->
     let turns := Z.to_nat (seconds + 1) in
     sleeps (journal s')
     = (sleeps (journal s) ++ repeat 1000000000 turns)%list /\
     (List.length (puts (journal s'))
      = (List.length (puts (journal s)) + turns)%nat \/
      List.length (puts (journal s'))
      = (List.length (puts (journal s)) + turns + 1)%nat)).
Proof.
  intros R Hf HB. unfold Earlier.Blink. unfold bind at 1.
  destruct (Earlier_Blink_loop_run seconds bridge (Z.to_nat (seconds + 1))
              fuel 0 self s) as (l1 & e1 & s1 & Run & Ok);
    [lia | exact Hf | lia | lia | exact HB |].
  rewrite Run. destruct e1 as [e1|].
  { exists l1, (Some e1), s1. split; [reflexivity | discriminate]. }
  destruct (Ok eq_refl) as (B1 & Sl1 & P1).
  destruct (negb (Bool.eqb (On (State l1)) (On (State self)))).
  - unfold bind.
    destruct (Earlier_Toggle_returns l1 s1 bridge B1) as (l2 & e2 & s2 & T).
    rewrite T. destruct (Earlier_Toggle_puts _ _ _ _ _ T) as (P2 & Sl2 & _).
    destruct e2 as [e2|].
    { exists l2, (Some e2), s2. split; [reflexivity | discriminate]. }
    exists l2, None, s2. split; [reflexivity|]. intros _. cbv zeta. split.
    + rewrite Sl2. exact Sl1.
    + right. rewrite P2, length_app, P1. simpl. lia.
  - exists l1, None, s1. split; [reflexivity|]. intros _. cbv zeta.
    split; [exact Sl1 | left; exact P1].
Qed.

(** The earlier [Blink], taken apart when it returns no error. *)
Lemma Earlier_Blink_success (fuel : nat) (self l : Light BridgeRef)
    (seconds : Z) (s s' : St) :
  Earlier.Blink fuel self seconds s = Done (Some (l, None)) s' ->
  exists l1 s1,
    Earlier.Blink_loop fuel seconds 0 self s = Done (Some (l1, None)) s1 /\
    (l = l1 \/ Earlier.Toggle l1 s1 = Done (l, None) s').
Proof.
  unfold Earlier.Blink. unfold bind at 1.
  destruct (Earlier.Blink_loop fuel seconds 0 self s)
    as [[[l1 [e1|]]|] s1|]; try discriminate.
  intros Eq. exists l1, s1. split; [reflexivity|].
  destruct (negb (Bool.eqb (On (State l1)) (On (State self)))).
  - right. unfold bind in Eq.
    destruct (Earlier.Toggle l1 s1) as [[l2 [e2|]] s2|];
      inversion Eq; subst; reflexivity.
  - left. inversion Eq; reflexivity.
Qed.

(** The loop of the earlier [Blink], given fuel for the turns the condition
    [i <= seconds] allows, below the largest [int]: it comes back without
    error exactly when these turns were made, each without error. *)
Lemma Earlier_Blink_loop_Toggled (seconds : Z) (n : nat) :
  forall (fuel : nat) (i : Z) (self l : Light BridgeRef) (s s' : St),
    seconds < 2 ^ 63 - 1 -> (n <= fuel)%nat -> - 2 ^ 63 <= i ->
    Z.of_nat n = Z.max 0 (seconds + 1 - i) ->
    (Earlier.Blink_loop fuel seconds i self s = Done (Some (l, None)) s' <->
     Toggled n self s l s').
Proof.
  induction n as [|n IH]; intros fuel i self l s s' Hs Hf Hi Hn.
  - assert (Hc : Z.leb i seconds = false) by (apply Z.leb_gt; lia).
    assert (Eq : Earlier.Blink_loop fuel seconds i self s
                 = Done (Some (self, None)) s)
      by (destruct fuel; simpl; rewrite Hc; reflexivity).
    rewrite Eq. split.
    + intros Same; inversion Same; subst; constructor.
    + intros T; inversion T; subst; reflexivity.
  - assert (Hc : Z.leb i seconds = true) by (apply Z.leb_le; lia).
    destruct fuel as [|fuel]; [lia|]. simpl. rewrite Hc. unfold bind at 1.
    split.
    + intros Run.
      destruct (Earlier.Toggle self s) as [[l1 [e1|]] s1|] eqn:T;
        try discriminate Run.
      unfold bind, time_Sleep, record in Run.
      rewrite int_wrap_small in Run by lia.
      apply IH in Run; [|exact Hs | lia | lia | lia].
      eapply Toggled_more; [exact T | reflexivity | exact Run].
    + intros Tg.
      inversion Tg as [|n' self' s0 l1 s1 s2 l' s'' T Sl Rest]; subst.
      rewrite T. unfold bind. rewrite Sl.
      rewrite int_wrap_small by lia.
      apply IH; [exact Hs | lia | lia | lia | exact Rest].
Qed.

(** X16.  For a duration below the largest [int] and fuel for its
    [seconds + 1] turns (none for a negative duration), the earlier [Blink]
    returns no error exactly when all these turns were made, each a [Toggle]
    that returned no error followed by a sleep of one second, and then either
    the power flag of the mirror was the one it had before the call, and
    nothing more was done, or it was not and one more [Toggle] returned no
    error.  Unlike the later [Blink], it returns the error of that last
    [Toggle], which puts the lamp back. *)
Theorem Earlier_Blink_success_iff (fuel : nat) (self l : Light BridgeRef)
    (seconds : Z) (s s' : St) :
  - 2 ^ 63 <= seconds < 2 ^ 63 - 1 ->
  (Z.to_nat (seconds + 1) <= fuel)%nat ->
  (Earlier.Blink fuel self seconds s = Done (Some (l, None)) s' <->
   exists l1 s1,
     Toggled (Z.to_nat (seconds + 1)) self s l1 s1 /\
     ((On (State l1) = On (State self) /\ l = l1 /\ s' = s1) \/
      (On (State l1) <> On (State self) /\
       Earlier.Toggle l1 s1 = Done (l, None) s'))) /\
  (forall l1 s1 l2 e s2,
      Toggled (Z.to_nat (seconds + 1)) self s l1 s1 ->
      On (State l1) <> On (State self) ->
      Earlier.Toggle l1 s1 = Done (l2, Some e) s2 ->
      Earlier.Blink fuel self seconds s = Done (Some (l2, Some e)) s2).
Proof.
  intros R Hf.
  assert (Loop : forall l1 s1,
             Earlier.Blink_loop fuel seconds 0 self s = Done (Some (l1, None)) s1
             <-> Toggled (Z.to_nat (seconds + 1)) self s l1 s1).
  { intros l1 s1. apply Earlier_Blink_loop_Toggled; lia. }
  split.
  - unfold Earlier.Blink. unfold bind at 1.
    destruct (Earlier.Blink_loop fuel seconds 0 self s)
      as [[[l1 [e1|]]|] s1|] eqn:Run.
    + split; [discriminate|]. intros (l' & s'' & Tg & _).
      apply Loop in Tg. discriminate.
    + destruct (Bool.eqb (On (State l1)) (On (State self))) eqn:Fl; simpl.
      * apply eqb_prop in Fl. split.
        -- intros Eq. inversion Eq; subst. exists l, s'.
           split; [apply Loop; reflexivity|]. left. auto.
        -- intros (l' & s'' & Tg & Rest). apply Loop in Tg.
           inversion Tg; subst.
           destruct Rest as [(_ & -> & ->)|(Ne & _)];
             [reflexivity | contradiction].
      * apply eqb_false_iff in Fl. unfold bind. split.
        -- intros Eq. exists l1, s1. split; [apply Loop; reflexivity|]. right.
           split; [exact Fl|].
           destruct (Earlier.Toggle l1 s1) as [[l2 [e2|]] s2|];
             inversion Eq; subst; reflexivity.
        -- intros (l' & s'' & Tg & Rest). apply Loop in Tg.
           inversion Tg; subst.
           destruct Rest as [(Same & _)|(_ & T)]; [contradiction|].
           rewrite T. reflexivity.
    + split; [discriminate|]. intros (l' & s'' & Tg & _).
      apply Loop in Tg. discriminate.
    + split; [discriminate|]. intros (l' & s'' & Tg & _).
      apply Loop in Tg. discriminate.
  - intros l1 s1 l2 e s2 Tg Ne T. apply Loop in Tg.
    unfold Earlier.Blink, bind. rewrite Tg.
    apply eqb_false_iff in Ne. rewrite Ne. simpl. rewrite T. reflexivity.
Qed.

(** With the largest [int] for duration the condition [i <= seconds] always
    holds: the loop never ends on it. *)
Lemma Earlier_Blink_loop_max (seconds : Z) (fuel : nat) :
  seconds = 2 ^ 63 - 1 ->
  forall (i : Z) (self l : Light BridgeRef) (s s' : St),
    - 2 ^ 63 <= i < 2 ^ 63 ->
    Earlier.Blink_loop fuel seconds i self s <> Done (Some (l, None)) s'.
Proof.
  intros Hs. induction fuel as [|fuel IH]; intros i self l s s' Hi;
    assert (Hc : Z.leb i seconds = true) by (apply Z.leb_le; lia);
    cbn [Earlier.Blink_loop]; rewrite Hc.
  - discriminate.
  - unfold bind at 1.
    destruct (Earlier.Toggle self s) as [[l1 [e1|]] s1|]; try discriminate.
    unfold bind, time_Sleep. apply IH. apply int_wrap_range.
Qed.

(** X17.  For the largest [int] as duration the earlier [Blink] never returns
    without error, whatever the fuel: [i <= seconds] holds for every [int],
    [i++] wrapping around, so that its loop ends only on a call that
    fails. *)
Theorem Earlier_Blink_max_int (fuel : nat) (self l : Light BridgeRef)
    (s s' : St) :
  Earlier.Blink fuel self (2 ^ 63 - 1) s <> Done (Some (l, None)) s'.
Proof.
  intros H. apply Earlier_Blink_success in H.
  destruct H as (l1 & s1 & Run & _).
  apply (Earlier_Blink_loop_max (2 ^ 63 - 1) fuel eq_refl 0 self l1 s s1);
    [lia | exact Run].
Qed.

(** A loop of the earlier [Blink] that made its turns without error leaves
    the index and the bridge of the mirror as they were. *)
Lemma Earlier_Blink_loop_mirror (seconds : Z) (fuel : nat) :
  forall (i : Z) (self l : Light BridgeRef) (s s' : St),
    Earlier.Blink_loop fuel seconds i self s = Done (Some (l, None)) s' ->
    Index l = Index self /\ Bridge l = Bridge self.
Proof.
  induction fuel as [|fuel IH]; intros i self l s s' Run;
    cbn [Earlier.Blink_loop] in Run; destruct (Z.leb i seconds);
    try (unfold ret in Run; inversion Run; subst; auto; fail).
  unfold bind at 1 in Run.
  destruct (Earlier_Toggle_SetState self s) as (line & T). rewrite T in Run.
  destruct (SetState self _ _) as [[l1 [e1|]] s1|] eqn:St1;
    try discriminate Run.
  unfold bind, time_Sleep in Run. apply IH in Run.
  apply SetState_mirror in St1. destruct St1, Run. split; congruence.
Qed.

(** X20.  When the earlier [Blink] returns no error the mirror has the index
    and the bridge it had before the call. *)
Theorem Earlier_Blink_success_mirror (fuel : nat) (self l : Light BridgeRef)
    (seconds : Z) (s s' : St) :
  Earlier.Blink fuel self seconds s = Done (Some (l, None)) s' ->
  Index l = Index self /\ Bridge l = Bridge self.
Proof.
  intros H. apply Earlier_Blink_success in H.
  destruct H as (l1 & s1 & Run & Rest).
  apply Earlier_Blink_loop_mirror in Run.
  destruct Rest as [->|T]; [exact Run|].
  destruct (Earlier_Toggle_SetState l1 s1) as (line & Eq). rewrite Eq in T.
  apply SetState_mirror in T. destruct T, Run. split; congruence.
Qed.
End EarlierRevision.

(** ** The paths *)

Lemma to_int_not_nil (z : Z) :
  Z.to_int z <> Decimal.Pos Decimal.Nil /\ Z.to_int z <> Decimal.Neg Decimal.Nil.
Proof.
  split; intros H;
    (assert (Hz : z = 0) by (rewrite <- (DecimalZ.of_to z), H; reflexivity));
    subst z; discriminate H.
Qed.

(** The verb [%d] reads back: two integers with the same digits are the same
    integer. *)
Lemma format_d_reads_back (z : Z) :
  NilZero.int_of_string (format_d z) = Some (Z.to_int z).
Proof.
  destruct (to_int_not_nil z) as [P N]. apply (NilZero.isi _ P N).
Qed.

Lemma format_d_inj (a b : Z) : format_d a = format_d b -> a = b.
Proof.
  intros H. apply DecimalZ.to_int_inj.
  assert (Ha := format_d_reads_back a). assert (Hb := format_d_reads_back b).
  rewrite H in Ha. congruence.
Qed.

(** Nothing that ends in "/state" reads as an integer. *)
Lemma uint_of_string_state (s : string) :
  NilEmpty.uint_of_string (s ++ "/state") = None.
Proof.
  induction s as [|c s IH]; [reflexivity|].
  simpl. rewrite IH. reflexivity.
Qed.

Lemma int_of_string_state (s : string) :
  NilZero.int_of_string (s ++ "/state") = None.
Proof.
  destruct s as [|c s]; [reflexivity|].
  change (String c s ++ "/state") with (String c (s ++ "/state")).
  unfold NilZero.int_of_string, NilZero.uint_of_string.
  destruct (Ascii.eqb c "-").
  - destruct (s ++ "/state") eqn:Eq; [reflexivity|].
    rewrite <- Eq, uint_of_string_state. reflexivity.
  - change (String c (s ++ "/state")) with (String c s ++ "/state").
    rewrite uint_of_string_state. reflexivity.
Qed.

Lemma append_inv_head (p a b : string) : p ++ a = p ++ b -> a = b.
Proof.
  induction p as [|c p IH]; simpl; intros H; [exact H|].
  inversion H. auto.
Qed.

Lemma append_length (a b : string) :
  String.length (a ++ b) = (String.length a + String.length b)%nat.
Proof.
  induction a as [|x a IH]; simpl; [reflexivity | rewrite IH; reflexivity].
Qed.

Lemma append_inv_tail (t a : string) : forall b, a ++ t = b ++ t -> a = b.
Proof.
  induction a as [|x a IH]; intros [|y b] Eq; simpl in Eq.
  - reflexivity.
  - exfalso. apply (f_equal String.length) in Eq. simpl in Eq.
    rewrite append_length in Eq. lia.
  - exfalso. apply (f_equal String.length) in Eq. simpl in Eq.
    rewrite append_length in Eq. lia.
  - inversion Eq. f_equal. apply IH. assumption.
Qed.

Lemma append_assoc (a b c : string) : (a ++ b) ++ c = a ++ b ++ c.
Proof.
  induction a as [|x a IH]; simpl; [reflexivity | rewrite IH; reflexivity].
Qed.

Section Paths.
Context {E : Env}.

Lemma state_uri_light_uri (bridge : BridgeRef) (index : Z) :
  state_uri bridge index = light_uri bridge index ++ "/state".
Proof.
  unfold state_uri, light_uri. rewrite !append_assoc. reflexivity.
Qed.

Lemma light_uri_inj (bridge : BridgeRef) (i j : Z) :
  light_uri bridge i = light_uri bridge j -> i = j.
Proof.
  unfold light_uri. intros H.
  do 3 apply append_inv_head in H. apply format_d_inj. exact H.
Qed.

(** X18.  On one bridge, the paths tell the lamps apart: two indices have the
    same light path, or the same state path, only when they are the same
    index; and the state path of an index, which [SetState] writes to, is
    never the light path of an index, which [GetLightByIndex] reads. *)
Theorem paths_tell_lamps_apart (bridge : BridgeRef) (i j : Z) :
  (light_uri bridge i = light_uri bridge j <-> i = j) /\
  (state_uri bridge i = state_uri bridge j <-> i = j) /\
  state_uri bridge i <> light_uri bridge j.
Proof.
  split; [|split].
  - split; [apply light_uri_inj | intros ->; reflexivity].
  - split; [|intros ->; reflexivity].
    unfold state_uri. intros H. do 3 apply append_inv_head in H.
    apply format_d_inj. apply (append_inv_tail "/state"). exact H.
  - unfold state_uri, light_uri. intros H. do 3 apply append_inv_head in H.
    assert (Hi := int_of_string_state (format_d i)).
    rewrite H, format_d_reads_back in Hi. discriminate.
Qed.
End Paths.

(** * More runs on the simulated bridge *)

Section MoreRuns.
Import Fake.

(** [SetState_error_then_panic] at work: the mirror of a lamp that is no
    longer in the house. *)
Lemma SetState_error_then_panic_witness :
  exists light' e s',
    SetState gone switch_on (start home) = Done (light', Some e) s' /\
    exists bridge,
      Bridge gone = Some bridge /\
      match bridge_Put bridge (state_uri bridge (Index gone)) switch_on
                       (world (start home))
      with
      | (Some pe, _) =>
        e = BridgeError pe /\ light' = gone /\
        gets (journal s') = gets (journal (start home))
      | (None, w) =>
        GetLightByIndex bridge (Index gone)
          {| world := w;
             journal := journal (start home)
                        ++ [CallPut bridge (state_uri bridge (Index gone))
                                    switch_on] |}
        = Done (light', Some e) s' /\
        gets (journal s')
        = (gets (journal (start home)) ++ [light_uri bridge (Index gone)])%list /\
        light' = Light_zero /\
        forall newState2 s2, SetState light' newState2 s2 = Panic
      end.
Proof.
  do 3 eexists. split; [evaluate|].
  eapply (SetState_error_then_panic (E := env) gone _ switch_on _ (start home)).
  evaluate.
Defined.

(** [Toggle_twice] at work: another client switches lamp 1 off after the
    first [Toggle] has switched it on; the second [Toggle] switches it on
    again. *)
Lemma Toggle_twice_witness :
  exists l1 s1 l2 err s2,
    Toggle lamp1 (start contended) = Done (l1, None) s1 /\
    Toggle l1 s1 = Done (l2, err) s2 /\
    puts (journal s2)
    = (puts (journal (start contended))
       ++ [LightState_On (negb (On (State lamp1)));
           LightState_On (negb (On (State l1)))])%list /\
    (On (State l1) = On (State lamp1) ->
     puts (journal s2)
     = (puts (journal (start contended))
        ++ [LightState_On (negb (On (State lamp1)));
            LightState_On (negb (On (State lamp1)))])%list).
Proof.
  do 5 eexists. split; [evaluate|]. split; [evaluate|].
  eapply (Toggle_twice (E := env) lamp1 _ _ _ (start contended));
    [evaluate | evaluate].
Defined.

(** [Blink_error_leaves_blinking] at work: the network is lost after five
    calls, between the [Put] and the [Get] of the second turn. *)
Lemma Blink_error_leaves_blinking_witness :
  exists l e s',
    Blink lamp1 1 (start (failing_after 5)) = Done (l, Some e) s' /\
    exists m,
      (m <= Blink_turns 1)%nat /\
      puts (journal s')
      = (puts (journal (start (failing_after 5)))
         ++ blinkMax :: map oscillation (seq 0 m))%list /\
      sleeps (journal s')
      = (sleeps (journal (start (failing_after 5)))
         ++ repeat 500000000 (Nat.pred m))%list /\
      Forall (fun patch => ls_On patch = true /\
                           (ls_Bri patch = 200 \/ ls_Bri patch = 50))
             (blinkMax :: map oscillation (seq 0 m)).
Proof.
  do 3 eexists. split; [evaluate|].
  eapply (Blink_error_leaves_blinking (E := env) lamp1 _ 1 _
                                      (start (failing_after 5))).
  evaluate.
Defined.

(** [Blink_turns_int64] at work: a negative duration. *)
Lemma Blink_turns_int64_witness :
  exists l1 s1,
    - 2 ^ 63 <= -1 < 2 ^ 63 /\
    Blink_oscillate lamp1 (-1) (start home) = Done (l1, None) s1 /\
    exists turns,
      puts (journal s1)
      = (puts (journal (start home))
         ++ blinkMax :: map oscillation (seq 0 turns))%list /\
      sleeps (journal s1)
      = (sleeps (journal (start home)) ++ repeat 500000000 turns)%list /\
      (0 <= -1 < 2 ^ 62 -> Z.of_nat turns = 2 * -1 + 1) /\
      (- 2 ^ 62 <= -1 < 0 -> turns = O) /\
      (2 ^ 62 <= -1 -> turns = O) /\
      (-1 < - 2 ^ 62 -> Z.of_nat turns = 2 * -1 + 2 ^ 64 + 1).
Proof.
  do 2 eexists. split; [lia|]. split; [evaluate|].
  eapply (Blink_turns_int64 (E := env) lamp1 _ (-1) (start home));
    [lia | evaluate].
Defined.

(** [Earlier_Blink_turns] at work: one second on lamp 1 of the house. *)
Lemma Earlier_Blink_turns_witness :
  - 2 ^ 63 <= 1 < 2 ^ 63 - 1 /\
  (Z.to_nat (1 + 1) <= 2)%nat /\
  Bridge lamp1 = Some hub /\
  exists l err s',
    Earlier.Blink 2 lamp1 1 (start home) = Done (Some (l, err)) s' /\
    (err = None ->
     let turns := Z.to_nat (1 + 1) in
     sleeps (journal s')
     = (sleeps (journal (start home)) ++ repeat 1000000000 turns)%list /\
     (List.length (puts (journal s'))
      = (List.length (puts (journal (start home))) + turns)%nat \/
      List.length (puts (journal s'))
      = (List.length (puts (journal (start home))) + turns + 1)%nat)).
Proof.
  split; [lia|]. split; [vm_compute; lia|]. split; [reflexivity|].
  apply (Earlier_Blink_turns (E := env) (C := console) 2 lamp1 1 (start home) hub);
    [lia | vm_compute; lia | reflexivity].
Defined.

(** [Blink_success_mirror] at work, on its second case: the network is lost
    between the last [Put] and the fetch. *)
Lemma Blink_success_mirror_witness :
  exists l s',
    Blink lamp1 0 (start (failing_after 5)) = Done (l, None) s' /\
    ((Index l = Index lamp1 /\ Bridge l = Bridge lamp1) \/ l = Light_zero).
Proof.
  do 2 eexists. split; [evaluate|].
  eapply (Blink_success_mirror (E := env) lamp1 _ 0 (start (failing_after 5))).
  evaluate.
Defined.

(** [Earlier_Blink_success_mirror] at work. *)
Lemma Earlier_Blink_success_mirror_witness :
  exists l s',
    Earlier.Blink 2 lamp1 1 (start home) = Done (Some (l, None)) s' /\
    Index l = Index lamp1 /\ Bridge l = Bridge lamp1.
Proof.
  do 2 eexists. split; [evaluate|].
  eapply (Earlier_Blink_success_mirror (E := env) (C := console) 2 lamp1 _ 1
                                       (start home)).
  evaluate.
Defined.

(** [Earlier_Blink_success_iff] at work: one second on lamp 1 of the house,
    two turns. *)
Lemma Earlier_Blink_success_iff_witness :
  exists l s',
    - 2 ^ 63 <= 1 < 2 ^ 63 - 1 /\
    (Z.to_nat (1 + 1) <= 2)%nat /\
    Earlier.Blink 2 lamp1 1 (start home) = Done (Some (l, None)) s' /\
    exists l1 s1,
      Toggled (Z.to_nat (1 + 1)) lamp1 (start home) l1 s1 /\
      ((On (State l1) = On (State lamp1) /\ l = l1 /\ s' = s1) \/
       (On (State l1) <> On (State lamp1) /\
        Earlier.Toggle l1 s1 = Done (l, None) s')).
Proof.
  do 2 eexists. split; [lia|]. split; [vm_compute; lia|].
  split; [evaluate|].
  eapply (proj1 (proj1 (Earlier_Blink_success_iff
                          (E := env) (C := console) 2 lamp1 _ 1 (start home) _
                          ltac:(lia) ltac:(vm_compute; lia)))).
  evaluate.
Defined.

(** [Blink_error_iff] at work: the network is lost after five calls, between
    the [Put] and the [Get] of the second turn. *)
Lemma Blink_error_iff_witness :
  exists l e s',
    Blink lamp1 1 (start (failing_after 5)) = Done (l, Some e) s' /\
    (SetState lamp1 blinkMax (start (failing_after 5)) = Done (l, Some e) s' \/
     exists l0 s0 m lm sm,
       SetState lamp1 blinkMax (start (failing_after 5)) = Done (l0, None) s0 /\
       (m < Blink_turns 1)%nat /\
       Turned 0 m l0 s0 lm sm /\
       SetState lm (oscillation m) sm = Done (l, Some e) s').
Proof.
  do 3 eexists. split; [evaluate|].
  eapply (proj1 (proj1 (Blink_error_iff (E := env) lamp1 _ 1 _
                                        (start (failing_after 5)) _))).
  evaluate.
Defined.

(** [GetLightByIndex_error_mirror] at work: index 3 of the house. *)
Lemma GetLightByIndex_error_mirror_witness :
  exists light e s',
    GetLightByIndex hub 3 (start home) = Done (light, Some e) s' /\
    light = Light_zero /\ Index light = 0 /\ Bridge light = None /\
    forall newState s2, SetState light newState s2 = Panic.
Proof.
  do 3 eexists. split; [evaluate|].
  eapply (GetLightByIndex_error_mirror (E := env) hub 3 _ _ (start home)).
  evaluate.
Defined.
End MoreRuns.

(** * The steps of [Blink] *)



Section Steps.
Context {E : Env}.

End Steps.

Section StepRuns.
Import Fake.


End StepRuns.
